(** * The roadmap generator of lib/ai.ts

  A shallow embedding of the prompt validator, the response repair pass,
  the fallback generator and the tree layout of [generateRoadmap], with the
  properties its specification states about them.

  Conventions of the embedding.
  - A JavaScript string is a [string]: a sequence of code units in the
    range U+0000..U+00FF.  [length], [toLowerCase], [trim], [includes] and
    the three regular expressions of the source are written out on that
    range.
  - A JavaScript number is an exact rational ([Q]); every number the
    module computes with is a JSON decimal literal, a node index or a
    layout coordinate.  Rounding to binary64 is not modelled.
  - [JSON.parse] is read two ways.  Where a property is about when the
    repair pass throws and with which message, [JSON.parse] is a parameter
    ([parseResponseWith], [repairWith]), and the property holds whatever
    it returns and throws.  Elsewhere it is [Json.parse], which reads the
    JSON texts whose strings stay within U+0000..U+00FF, so an escape above
    U+00FF is no JSON to it, and which gives every SyntaxError the one
    message [syntaxErrorMessage].
  - A thrown [Error] is a value of [JsError]; a function that may throw
    returns [JsError + A].
  - The outside world ([process.env], [axios.post], [Math.random]) is an
    explicit [Env]; the requests sent are returned next to the result. *)

From Stdlib Require Import List String Ascii Bool Arith ZArith QArith Lia.
From Stdlib Require Import DecimalString Qround Qpower.
From Stdlib Require Import Permutation Sorted Lqa.
Import ListNotations.

#[local] Set Warnings "-register-all".

Close Scope Q_scope.
Open Scope string_scope.

(* ================================================================= *)
(** ** JavaScript strings *)

Module JsString.

(** The double quote. *)
Definition dquote : ascii := "034"%char.

(** [js "{'a':1}"] is the text [{"a":1}]: every apostrophe of the literal
    stands for a double quote. *)
Fixpoint js (s : string) : string :=
  match s with
  | EmptyString => EmptyString
  | String c r => String (if Ascii.eqb c "'"%char then dquote else c) (js r)
  end.

Definition code (c : ascii) : nat := nat_of_ascii c.

Definition between (lo hi : nat) (c : ascii) : bool :=
  (lo <=? code c)%nat && (code c <=? hi)%nat.

(** ECMAScript WhiteSpace and LineTerminator, within U+0000..U+00FF:
    TAB, LF, VT, FF, CR, SP and NBSP. *)
Definition isWhiteSpace (c : ascii) : bool :=
  between 9 13 c || (code c =? 32)%nat || (code c =? 160)%nat.

(** [\d] *)
Definition isDigit (c : ascii) : bool := between 48 57 c.

(** The lower-case mapping of one code unit: A-Z, and the Latin-1 capitals
    U+00C0..U+00DE without the multiplication sign U+00D7. *)
Definition lowerChar (c : ascii) : ascii :=
  if between 65 90 c
     || (between 192 222 c && negb (code c =? 215)%nat)
  then ascii_of_nat (code c + 32)
  else c.

(** [String.prototype.toLowerCase] *)
Fixpoint toLowerCase (s : string) : string :=
  match s with
  | EmptyString => EmptyString
  | String c r => String (lowerChar c) (toLowerCase r)
  end.

Fixpoint trimStart (s : string) : string :=
  match s with
  | EmptyString => EmptyString
  | String c r => if isWhiteSpace c then trimStart r else s
  end.

Fixpoint trimEnd (s : string) : string :=
  match s with
  | EmptyString => EmptyString
  | String c r =>
      let r' := trimEnd r in
      if isWhiteSpace c && (r' =? "") then "" else String c r'
  end.

(** [String.prototype.trim] *)
Definition trim (s : string) : string := trimEnd (trimStart s).

(** [s.includes(k)]: [k] occurs in [s] as a substring. *)
Fixpoint includes (s k : string) : bool :=
  prefix k s ||
  match s with
  | EmptyString => false
  | String _ r => includes r k
  end.

(** [s.startsWith(k)] *)
Definition startsWith (s k : string) : bool := prefix k s.

(** The relation [includes] decides. *)
Definition Substring (k s : string) : Prop :=
  exists a b, s = a ++ k ++ b.

(** JavaScript's [<=] on two strings: the order of their code units. *)
Fixpoint string_leb (a b : string) : bool :=
  match a, b with
  | EmptyString, _ => true
  | String _ _, EmptyString => false
  | String x a', String y b' =>
      if (code x <? code y)%nat then true
      else if (code y <? code x)%nat then false
      else string_leb a' b'
  end.

(** [s.split(sep)] for a separator of one code unit. *)
Fixpoint split (sep : ascii) (s : string) : list string :=
  match s with
  | EmptyString => [EmptyString]
  | String c r =>
      if Ascii.eqb c sep then EmptyString :: split sep r
      else match split sep r with
           | [] => [String c EmptyString]
           | h :: t => String c h :: t
           end
  end.

(** The longest run of digits a string starts with, and what follows. *)
Fixpoint spanDigits (s : string) : string * string :=
  match s with
  | EmptyString => ("", "")
  | String c r =>
      if isDigit c
      then let '(d, rest) := spanDigits r in (String c d, rest)
      else ("", s)
  end.

(** Truthiness of a string. *)
Definition nonEmpty (s : string) : bool := negb (s =? "").

(** The code unit [c] occurs in [s]. *)
Fixpoint occurs (c : ascii) (s : string) : bool :=
  match s with
  | EmptyString => false
  | String d r => Ascii.eqb d c || occurs c r
  end.

End JsString.
Import JsString.

(* ================================================================= *)
(** ** JavaScript numbers *)

Module JsNumber.

Definition number : Type := Q.

Definition ofNat (n : nat) : number := inject_Z (Z.of_nat n).

(** The decimal digits of a positive integer. *)
Definition digits (p : positive) : string :=
  NilEmpty.string_of_uint (Pos.to_uint p).

Definition natToString (n : nat) : string :=
  match n with
  | O => "0"
  | S _ => digits (Pos.of_nat n)
  end.

Fixpoint zeros (n : nat) : string :=
  match n with
  | O => ""
  | S m => String "0"%char (zeros m)
  end.

(** The least [j <= fuel + from] at or after [from] with
    [den | 10^j], if any. *)
Fixpoint scale (fuel : nat) (from : Z) (den : Z) : option Z :=
  if (Z.pow 10 from mod den =? 0)%Z then Some from
  else match fuel with
       | O => None
       | S f => scale f (from + 1)%Z den
       end.

(** [stripZeros fuel m e]: [m * 10^e] with the trailing zeros of [m]
    moved into the exponent. *)
Fixpoint stripZeros (fuel : nat) (m e : Z) : Z * Z :=
  match fuel with
  | O => (m, e)
  | S f =>
      if ((m mod 10 =? 0) && negb (m =? 0))%Z
      then stripZeros f (m / 10)%Z (e + 1)%Z
      else (m, e)
  end.

(** Number::toString (radix 10) of a positive number [s * 10^(n-k)],
    where [ds] are the [k] digits of [s]; ECMA-262, 6.1.6.1.20. *)
Definition formatDecimal (ds : string) (n : Z) : string :=
  let k := Z.of_nat (String.length ds) in
  if ((k <=? n) && (n <=? 21))%Z then
    ds ++ zeros (Z.to_nat (n - k))
  else if ((0 <? n) && (n <=? 21))%Z then
    substring 0 (Z.to_nat n) ds ++ "." ++
    substring (Z.to_nat n) (Z.to_nat (k - n)) ds
  else if ((-6 <? n) && (n <=? 0))%Z then
    "0." ++ zeros (Z.to_nat (- n)) ++ ds
  else
    let e := (n - 1)%Z in
    let sign := if (e <? 0)%Z then "-" else "+" in
    let mant :=
      if (k =? 1)%Z then ds
      else substring 0 1 ds ++ "." ++ substring 1 (Z.to_nat (k - 1)) ds in
    mant ++ "e" ++ sign ++ digits (Z.to_pos (Z.abs e)).

Definition positiveToString (num : positive) (den : positive) : string :=
  match scale (S (Z.to_nat (Z.log2 (Zpos den)))) 0 (Zpos den) with
  | Some j =>
      let m := (Zpos num * Z.pow 10 j / Zpos den)%Z in
      let '(s, e) := stripZeros (S (Z.to_nat (Z.log2 m))) m (- j)%Z in
      let ds := digits (Z.to_pos s) in
      formatDecimal ds (Z.of_nat (String.length ds) + e)%Z
  | None =>
      (* no finite decimal expansion: not the value of a JSON literal
         nor of an index, the only numbers this module prints *)
      digits num ++ "/" ++ digits den
  end.

(** The string a template literal gives for a number. *)
Definition toString (x : number) : string :=
  let r := Qred x in
  match Qnum r with
  | Z0 => "0"
  | Zpos p => positiveToString p (Qden r)
  | Zneg p => "-" ++ positiveToString p (Qden r)
  end.

(** [Math.floor] *)
Definition floor (x : number) : Z := Qfloor x.

End JsNumber.

(* ================================================================= *)
(** ** JavaScript values and JSON *)

Module Json.
Import JsNumber.

(** The values this module handles: what [JSON.parse] builds, and
    [undefined], the value of an absent property. *)
Inductive value : Type :=
| Undefined
| Null
| Bool (b : bool)
| Num (n : number)
| Str (s : string)
| Arr (items : list value)
| Obj (fields : list (string * value)).

(** ToBoolean *)
Definition truthy (v : value) : bool :=
  match v with
  | Undefined | Null => false
  | Bool b => b
  | Num n => negb (Qeq_bool n 0%Q)
  | Str s => nonEmpty s
  | Arr _ | Obj _ => true
  end.

(** [a === b].  An array or object is equal to itself only; the two
    operands compared in this module are read at different places of
    one parsed text, so they are never the same object. *)
Definition strictEq (a b : value) : bool :=
  match a, b with
  | Undefined, Undefined => true
  | Null, Null => true
  | Bool x, Bool y => Bool.eqb x y
  | Num x, Num y => Qeq_bool x y
  | Str x, Str y => String.eqb x y
  | _, _ => false
  end.

(** An own property of an object built by [JSON.parse]: of two members
    with one key the later wins. *)
Fixpoint lookup (k : string) (fields : list (string * value)) : value :=
  match fields with
  | [] => Undefined
  | (k', v) :: rest =>
      match lookup k rest with
      | Undefined => if String.eqb k' k then v else Undefined
      | later => later
      end
  end.

(** [v.k] for one of the property names of this module ([id], [title],
    [nodes], ...), none of which a built-in prototype defines.  [None]
    is the TypeError of reading a property of [null] or [undefined]. *)
Definition get (v : value) (k : string) : option value :=
  match v with
  | Undefined | Null => None
  | Obj fields => Some (lookup k fields)
  | Bool _ | Num _ | Str _ | Arr _ => Some Undefined
  end.

(** [v?.k] *)
Definition getOpt (v : value) (k : string) : value :=
  match get v k with
  | Some r => r
  | None => Undefined
  end.

(** [v?.[0]] *)
Definition firstOpt (v : value) : value :=
  match v with
  | Arr (x :: _) => x
  | Str (String c _) => Str (String c EmptyString)
  | Obj fields => lookup "0" fields
  | _ => Undefined
  end.

(** *** [JSON.parse]

    The text is cut into tokens by a machine that reads one code unit at
    a time, and the tokens are assembled by a stack machine: both are
    structural, so parsing is total. *)

Inductive token : Type :=
| TLBrace | TRBrace | TLBracket | TRBracket | TColon | TComma
| TString (s : string)
| TNumber (n : number)
| TTrue | TFalse | TNull.

Definition ofRev (acc : list ascii) : string :=
  string_of_list_ascii (rev acc).

(** JSON white space: SP, TAB, LF, CR. *)
Definition isJsonSpace (c : ascii) : bool :=
  (code c =? 32)%nat || (code c =? 9)%nat || (code c =? 10)%nat
  || (code c =? 13)%nat.

Definition isNumberChar (c : ascii) : bool :=
  isDigit c || (code c =? 43)%nat || (code c =? 45)%nat
  || (code c =? 46)%nat || (code c =? 101)%nat || (code c =? 69)%nat.

Definition hexValue (c : ascii) : option nat :=
  if isDigit c then Some (code c - 48)
  else if between 97 102 c then Some (code c - 87)
  else if between 65 70 c then Some (code c - 55)
  else None.

Fixpoint digitsValue (acc : Z) (s : string) : Z :=
  match s with
  | EmptyString => acc
  | String c r => digitsValue (acc * 10 + Z.of_nat (code c - 48))%Z r
  end.

(** [m * 10^e] *)
Definition decimal (m e : Z) : number :=
  if (0 <=? e)%Z then inject_Z (m * Z.pow 10 e)
  else Qred (Qmake m (Z.to_pos (Z.pow 10 (- e)))).

(** The exponent part of a number, after its [e] or [E]. *)
Definition exponentOf (s : string) : option Z :=
  let '(neg, body) :=
    match s with
    | String "-" r => (true, r)
    | String "+" r => (false, r)
    | _ => (false, s)
    end in
  match spanDigits body with
  | (String c d, EmptyString) =>
      let v := digitsValue 0 (String c d) in
      Some (if neg then (- v)%Z else v)
  | _ => None
  end.

(** The value of a JSON number: an optional minus sign; an integer part,
    which is 0 or starts with a digit other than 0; an optional fraction,
    a point and one digit or more; an optional exponent. *)
Definition numberOfLexeme (s : string) : option number :=
  let '(neg, s1) :=
    match s with
    | String "-" r => (true, r)
    | _ => (false, s)
    end in
  let '(ip, s2) := spanDigits s1 in
  let intOk :=
    match ip with
    | EmptyString => false
    | String "0" EmptyString => true
    | String c _ => negb (Ascii.eqb c "0")
    end in
  if negb intOk then None else
  let frac :=
    match s2 with
    | String "." r =>
        match spanDigits r with
        | (EmptyString, _) => None
        | (d, rest) => Some (d, rest)
        end
    | _ => Some ("", s2)
    end in
  match frac with
  | None => None
  | Some (fp, s3) =>
      let expo :=
        match s3 with
        | EmptyString => Some 0%Z
        | String c r =>
            if (code c =? 101)%nat || (code c =? 69)%nat
            then exponentOf r else None
        end in
      match expo with
      | None => None
      | Some e =>
          let m := digitsValue 0 (ip ++ fp) in
          Some (decimal (if neg then (- m)%Z else m)
                        (e - Z.of_nat (String.length fp)))
      end
  end.

Inductive lexState : Type :=
| LStart
| LInString (acc : list ascii)
| LEscape (acc : list ascii)
| LHex (acc : list ascii) (hex : list nat)
| LInNumber (acc : list ascii)
| LInWord (acc : list ascii).

Definition wordToken (w : string) : option token :=
  if w =? "true" then Some TTrue
  else if w =? "false" then Some TFalse
  else if w =? "null" then Some TNull
  else None.

(** One code unit read between two tokens. *)
Definition startChar (c : ascii) (out : list token)
  : option (lexState * list token) :=
  if isJsonSpace c then Some (LStart, out)
  else if Ascii.eqb c "{" then Some (LStart, TLBrace :: out)
  else if Ascii.eqb c "}" then Some (LStart, TRBrace :: out)
  else if Ascii.eqb c "[" then Some (LStart, TLBracket :: out)
  else if Ascii.eqb c "]" then Some (LStart, TRBracket :: out)
  else if Ascii.eqb c ":" then Some (LStart, TColon :: out)
  else if Ascii.eqb c "," then Some (LStart, TComma :: out)
  else if Ascii.eqb c dquote then Some (LInString [], out)
  else if isDigit c || Ascii.eqb c "-" then Some (LInNumber [c], out)
  else if between 97 122 c then Some (LInWord [c], out)
  else None.

Definition escaped (c : ascii) : option ascii :=
  if Ascii.eqb c dquote || Ascii.eqb c "\" || Ascii.eqb c "/" then Some c
  else if Ascii.eqb c "b" then Some (ascii_of_nat 8)
  else if Ascii.eqb c "f" then Some (ascii_of_nat 12)
  else if Ascii.eqb c "n" then Some (ascii_of_nat 10)
  else if Ascii.eqb c "r" then Some (ascii_of_nat 13)
  else if Ascii.eqb c "t" then Some (ascii_of_nat 9)
  else None.

Definition lexStep (st : lexState) (out : list token) (c : ascii)
  : option (lexState * list token) :=
  match st with
  | LStart => startChar c out
  | LInString acc =>
      if Ascii.eqb c dquote then Some (LStart, TString (ofRev acc) :: out)
      else if Ascii.eqb c "\" then Some (LEscape acc, out)
      else if (code c <? 32)%nat then None
      else Some (LInString (c :: acc), out)
  | LEscape acc =>
      if Ascii.eqb c "u" then Some (LHex acc [], out)
      else match escaped c with
           | Some e => Some (LInString (e :: acc), out)
           | None => None
           end
  | LHex acc hex =>
      match hexValue c with
      | None => None
      | Some h =>
          match hex with
          | [h2; h1; h0] =>
              (* an escape above U+00FF is outside the modelled range *)
              let u := (((h0 * 16 + h1) * 16 + h2) * 16 + h)%nat in
              if (u <? 256)%nat
              then Some (LInString (ascii_of_nat u :: acc), out)
              else None
          | _ => Some (LHex acc (h :: hex), out)
          end
      end
  | LInNumber acc =>
      if isNumberChar c then Some (LInNumber (c :: acc), out)
      else match numberOfLexeme (ofRev acc) with
           | Some n => startChar c (TNumber n :: out)
           | None => None
           end
  | LInWord acc =>
      if between 97 122 c then Some (LInWord (c :: acc), out)
      else match wordToken (ofRev acc) with
           | Some t => startChar c (t :: out)
           | None => None
           end
  end.

(** The tokens of a text, last first. *)
Fixpoint lex (st : lexState) (out : list token) (s : string)
  : option (list token) :=
  match s with
  | String c r =>
      match lexStep st out c with
      | Some (st', out') => lex st' out' r
      | None => None
      end
  | EmptyString =>
      match st with
      | LStart => Some out
      | LInNumber acc =>
          option_map (fun n => TNumber n :: out) (numberOfLexeme (ofRev acc))
      | LInWord acc =>
          option_map (fun t => t :: out) (wordToken (ofRev acc))
      | LInString _ | LEscape _ | LHex _ _ => None
      end
  end.

(** An array or object being read: what it holds so far, last first, and
    for an object the key whose value is being read. *)
Inductive frame : Type :=
| FArr (seen : list value)
| FObj (seen : list (string * value)) (key : string).

Inductive pState : Type :=
| PValue (stack : list frame)
| PArrFirst (stack : list frame)
| PObjFirst (stack : list frame)
| PKey (seen : list (string * value)) (stack : list frame)
| PColon (seen : list (string * value)) (key : string) (stack : list frame)
| PAfter (v : value) (stack : list frame).

Definition expectValue (t : token) (stack : list frame) : option pState :=
  match t with
  | TLBrace => Some (PObjFirst stack)
  | TLBracket => Some (PArrFirst stack)
  | TString s => Some (PAfter (Str s) stack)
  | TNumber n => Some (PAfter (Num n) stack)
  | TTrue => Some (PAfter (Bool true) stack)
  | TFalse => Some (PAfter (Bool false) stack)
  | TNull => Some (PAfter Null stack)
  | TRBrace | TRBracket | TColon | TComma => None
  end.

Definition parseStep (st : pState) (t : token) : option pState :=
  match st with
  | PValue stack => expectValue t stack
  | PArrFirst stack =>
      match t with
      | TRBracket => Some (PAfter (Arr []) stack)
      | _ => expectValue t (FArr [] :: stack)
      end
  | PObjFirst stack =>
      match t with
      | TRBrace => Some (PAfter (Obj []) stack)
      | TString k => Some (PColon [] k stack)
      | _ => None
      end
  | PKey seen stack =>
      match t with
      | TString k => Some (PColon seen k stack)
      | _ => None
      end
  | PColon seen k stack =>
      match t with
      | TColon => Some (PValue (FObj seen k :: stack))
      | _ => None
      end
  | PAfter v (FArr seen :: stack) =>
      match t with
      | TComma => Some (PValue (FArr (v :: seen) :: stack))
      | TRBracket => Some (PAfter (Arr (rev (v :: seen))) stack)
      | _ => None
      end
  | PAfter v (FObj seen k :: stack) =>
      match t with
      | TComma => Some (PKey ((k, v) :: seen) stack)
      | TRBrace => Some (PAfter (Obj (rev ((k, v) :: seen))) stack)
      | _ => None
      end
  | PAfter _ [] => None
  end.

Fixpoint parseTokens (st : pState) (ts : list token) : option value :=
  match ts with
  | t :: rest =>
      match parseStep st t with
      | Some st' => parseTokens st' rest
      | None => None
      end
  | [] =>
      match st with
      | PAfter v [] => Some v
      | _ => None
      end
  end.

(** [JSON.parse(text)]; [None] is its SyntaxError. *)
Definition parse (text : string) : option value :=
  match lex LStart [] text with
  | Some ts => parseTokens (PValue []) (rev ts)
  | None => None
  end.

End Json.
Import Json.
Import JsNumber.

(* ================================================================= *)
(** ** lib/ai.ts *)

Module Ai.

(** *** Errors *)

Record HttpResponse : Type := mkResponse {
  status : nat;
  data : value
}.

(** An [Error]: its message and, for a request the service answered with
    a failure status, the response ([error.response]). *)
Record JsError : Type := mkError {
  message : string;
  response : option HttpResponse
}.

(** [new Error(msg)] *)
Definition Error (msg : string) : JsError :=
  {| message := msg; response := None |}.

(** *** validatePrompt *)

Definition invalidKeywords : list string :=
  [ "weather"; "score"; "news"; "today"; "current"; "calculate";
    "what is"; "who is"; "where is"; "when is"; "why is";
    "how to fix"; "debug"; "error"; "problem" ].

Definition tooShort : string := "Please enter a longer topic description.".
Definition tooLong : string := "Please enter a shorter topic description.".
Definition notATopic : string :=
  "Please enter a topic you want to learn about, rather than a question or problem.".

Definition validatePrompt (prompt : string) : JsError + bool :=
  let lowerCasePrompt := trim (toLowerCase prompt) in
  if (String.length lowerCasePrompt <? 3)%nat then inl (Error tooShort)
  else if (200 <? String.length lowerCasePrompt)%nat then inl (Error tooLong)
  else
    let matchedKeyword :=
      find (fun keyword => includes lowerCasePrompt keyword)
           invalidKeywords in
    match matchedKeyword with
    | Some keyword =>
        if nonEmpty keyword then inl (Error notATopic) else inr true
    | None => inr true
    end.

(** *** calculateNodePosition *)

Record Position : Type := mkPosition { x : number; y : number }.

Definition VERTICAL_SPACING : number := 100%Q.
Definition MIN_NODE_SPACING : number := 140%Q.
Definition TOP_MARGIN : number := 50%Q.
Definition LEVEL_PADDING : number := 50%Q.

(** [Math.floor(Math.log2(n))] for an integer [n >= 1]. *)
Definition floorLog2 (n : nat) : nat := Nat.log2 n.

(** [Math.pow(b, level)] *)
Definition pow (b : number) (level : nat) : number :=
  Qpower b (Z.of_nat level).

Definition min (a b : number) : number :=
  if Qle_bool a b then a else b.

(** The quotient of two numbers.  JavaScript divides by zero to an
    infinity, which [Q] does not have: [Qdiv] gives 0 there.  The divisor
    below is [nodesInLevel + 1], at least 2 whenever [index < total]. *)
Definition calculateNodePosition (index total : nat) : Position :=
  let level := floorLog2 (index + 1) in
  let positionInLevel := (ofNat index - (pow 2%Q level - 1))%Q in
  let nodesInLevel :=
    min (pow 2%Q level) (ofNat total - (pow 2%Q level - 1))%Q in
  let baseWidth := (MIN_NODE_SPACING * pow 2%Q level)%Q in
  let xSpacing := (baseWidth / (nodesInLevel + 1))%Q in
  let x0 := ((positionInLevel + 1) * xSpacing - baseWidth / 2)%Q in
  let x1 :=
    if (0 <? level)%nat then
      let isRightSubtree := Qle_bool (nodesInLevel / 2)%Q positionInLevel in
      let spreadFactor := pow (3 # 2)%Q level in
      if isRightSubtree
      then (x0 + LEVEL_PADDING * spreadFactor)%Q
      else (x0 + - LEVEL_PADDING * spreadFactor)%Q
    else x0 in
  let y0 := (ofNat level * VERTICAL_SPACING + TOP_MARGIN)%Q in
  {| x := x1; y := y0 |}.

(** *** RoadmapNode *)

Record RoadmapNode : Type := mkNode {
  id : value;
  title : string;
  description : list value;
  children : list value;
  sequence : number;
  timeNeeded : number;
  completed : bool;
  timeConsumed : number;
  position : Position
}.

(** [`${n}`] for an index [n]. *)
Definition show (n : nat) : string := toString (ofNat n).

(** *** createFallbackNodes *)

(** [n.split('_')[1] <= nodeCount.toString()]: a comparison of two
    strings; [undefined] compares false. *)
Definition withinCount (nodeCount : nat) (n : string) : bool :=
  match nth_error (split "_" n) 1 with
  | Some suffix => string_leb suffix (show nodeCount)
  | None => false
  end.

Definition fallbackNode (prompt : string) (nodeCount : nat)
           (random : nat -> number) (i : nat) : RoadmapNode :=
  {| id := Str ("node_" ++ show (i + 1));
     title := show (i + 1) ++ ". " ++ prompt ++ " Topic " ++ show (i + 1);
     description :=
       [ Str ("Learn the basics of " ++ prompt ++ " concept " ++ show (i + 1));
         Str "Key areas: Theory, Practice, Application";
         Str ("Complete exercises related to " ++ prompt ++ " topic "
              ++ show (i + 1)) ];
     children :=
       if (i <? nodeCount - 2)%nat
       then map Str (filter (withinCount nodeCount)
                       [ "node_" ++ show (i + 2); "node_" ++ show (i + 3) ])
       else [];
     sequence := ofNat (i + 1);
     timeNeeded := inject_Z (floor (random i * 5)%Q + 1);
     timeConsumed := 0%Q;
     completed := false;
     position := calculateNodePosition i nodeCount |}.

(** [random i] is what the [i]-th call of [Math.random] returns; the loop
    calls it once for each node. *)
Definition createFallbackNodes (prompt level : string)
           (random : nat -> number) : list RoadmapNode :=
  let nodeCount :=
    if level =? "beginner" then 8
    else if level =? "intermediate" then 12 else 15 in
  map (fallbackNode prompt nodeCount random) (seq 0 nodeCount).

(** *** The regular expressions of the repair pass *)

(** [/^\d+\./] matches [t]. *)
Definition hasNumberPrefix (t : string) : bool :=
  match spanDigits t with
  | (String _ _, String "." _) => true
  | _ => false
  end.

(** [t.replace(/^\d+\.\s*/, '')] *)
Definition stripNumberPrefix (t : string) : string :=
  match spanDigits t with
  | (String _ _, String "." rest) => trimStart rest
  | _ => t
  end.

Fixpoint fromFirstOpen (s : string) : option string :=
  match s with
  | EmptyString => None
  | String c r => if Ascii.eqb c "{" then Some s else fromFirstOpen r
  end.

(** The longest prefix of [s] that ends with a closing brace. *)
Fixpoint uptoLastClose (s : string) : option string :=
  match s with
  | EmptyString => None
  | String c r =>
      match uptoLastClose r with
      | Some p => Some (String c p)
      | None => if Ascii.eqb c "}" then Some (String c EmptyString) else None
      end
  end.

(** [text.match(/\{[\s\S]*\}/)]: from the first opening brace to the
    last closing brace after it. *)
Definition matchBraces (text : string) : option string :=
  match fromFirstOpen text with
  | Some s => uptoLastClose s
  | None => None
  end.

(** *** The repair pass of generateRoadmap *)

(** The message of the SyntaxError of [JSON.parse]; its wording is the
    engine's, and stands here for any of them. *)
Definition syntaxErrorMessage : string := "Unexpected token in JSON".

Definition parseFailed : string := "Failed to parse JSON response: ".
Definition missingNodes : string :=
  "Invalid response format: missing nodes array".
Definition emptyNodes : string :=
  "Received empty nodes array from AI service".

(** The first [try], for any [JSON.parse]: [inr] is the value it
    returns, [inl] the message of the SyntaxError it throws.  When
    [JSON.parse(text)] throws [e], the brace span of [text] is parsed; when
    there is none or it does not parse, the error thrown carries
    [e.message], the message of the failed parse of the whole text. *)
Definition parseResponseWith (JSON_parse : string -> string + value)
  (text : string) : JsError + value :=
  match JSON_parse text with
  | inr v => inr v
  | inl message =>
      match matchBraces text with
      | Some extractedJson =>
          match JSON_parse extractedJson with
          | inr v => inr v
          | inl _ => inl (Error (parseFailed ++ message))
          end
      | None => inl (Error (parseFailed ++ message))
      end
  end.

(** [JSON.parse] as this file reads JSON ([Json.parse]), every
    SyntaxError with the one message. *)
Definition jsonParse (text : string) : string + value :=
  match parse text with
  | Some v => inr v
  | None => inl syntaxErrorMessage
  end.

(** The first [try] with [jsonParse] for [JSON.parse]. *)
Definition parseResponse (text : string) : JsError + value :=
  parseResponseWith jsonParse text.

(** The two checks on the parsed value; what remains is
    [parsedResponse.nodes]. *)
Definition nodesOf (parsedResponse : value) : JsError + list value :=
  if negb (truthy parsedResponse) then inl (Error missingNodes)
  else
    match get parsedResponse "nodes" with
    | Some (Arr nodes) =>
        if (List.length nodes =? 0)%nat then inl (Error emptyNodes)
        else inr nodes
    | _ => inl (Error missingNodes)
    end.

(** [a || b] *)
Definition orElse (a b : value) : value := if truthy a then a else b.

(** [roadmap.some(n => n.id === childId)]; [None] when reading [n.id]
    throws before a match is found. *)
Fixpoint someHasId (roadmap : list value) (childId : value) : option bool :=
  match roadmap with
  | [] => Some false
  | n :: rest =>
      match get n "id" with
      | None => None
      | Some i => if strictEq i childId then Some true
                  else someHasId rest childId
      end
  end.

(** [children.filter(childId => roadmap.some(...))] *)
Fixpoint filterChildren (roadmap children : list value)
  : option (list value) :=
  match children with
  | [] => Some []
  | childId :: rest =>
      match someHasId roadmap childId with
      | None => None
      | Some keep =>
          match filterChildren roadmap rest with
          | None => None
          | Some kept => Some (if keep then childId :: kept else kept)
          end
      end
  end.

(** The body of the [try] of the map callback; [None] when it throws. *)
Definition processNode (roadmap : list value) (node : value) (index : nat)
  : option RoadmapNode :=
  match get node "id", get node "title", get node "description",
        get node "children", get node "sequence", get node "timeNeeded"
  with
  | Some nodeId, Some nodeTitle, Some nodeDescription,
    Some nodeChildren, Some nodeSequence, Some nodeTimeNeeded =>
      let id0 := orElse nodeId (Str ("node_" ++ show (index + 1))) in
      let title0 :=
        orElse nodeTitle (Str (show (index + 1) ++ ". Untitled Node")) in
      let description0 :=
        match nodeDescription with Arr l => l | _ => [] end in
      let children0 :=
        match nodeChildren with Arr l => l | _ => [] end in
      let sequence0 :=
        match nodeSequence with Num n => n | _ => ofNat (index + 1) end in
      let timeNeeded0 :=
        match nodeTimeNeeded with Num n => n | _ => 0%Q end in
      let position0 := calculateNodePosition index (List.length roadmap) in
      match title0 with
      | Str t =>
          let title1 :=
            if negb (hasNumberPrefix t)
            then toString sequence0 ++ ". " ++ stripNumberPrefix t
            else t in
          let description1 :=
            if (List.length description0 =? 0)%nat
            then [Str "No description available"]
            else description0 in
          match filterChildren roadmap children0 with
          | Some children1 =>
              Some {| id := id0; title := title1;
                      description := description1;
                      children := children1;
                      sequence := sequence0;
                      timeNeeded := timeNeeded0;
                      completed := false;
                      timeConsumed := 0%Q;
                      position := position0 |}
          | None => None
          end
      | _ => None (* title.match is not a function *)
      end
  | _, _, _, _, _, _ => None (* node is null *)
  end.

(** The node the [catch] of the map callback returns. *)
Definition defaultNode (roadmap : list value) (index : nat) : RoadmapNode :=
  {| id := Str ("node_" ++ show (index + 1));
     title := show (index + 1) ++ ". Topic " ++ show (index + 1);
     description := [Str "Content to be added"];
     children := [];
     sequence := ofNat (index + 1);
     timeNeeded := 1%Q;
     completed := false;
     timeConsumed := 0%Q;
     position := calculateNodePosition index (List.length roadmap) |}.

(** [roadmap.map((node, index) => ...)], from [index] on. *)
Fixpoint mapNodes (roadmap : list value) (index : nat) (nodes : list value)
  : list RoadmapNode :=
  match nodes with
  | [] => []
  | node :: rest =>
      match processNode roadmap node index with
      | Some processedNode => processedNode
      | None => defaultNode roadmap index
      end :: mapNodes roadmap (S index) rest
  end.

(** [(a, b) => a.sequence - b.sequence] *)
Definition bySequence (a b : RoadmapNode) : number :=
  (sequence a - sequence b)%Q.

(** [Array.prototype.sort] is stable: a node goes before the first node
    it does not compare greater than, and it came before all of them. *)
Fixpoint insertSorted (a : RoadmapNode) (sorted : list RoadmapNode)
  : list RoadmapNode :=
  match sorted with
  | [] => [a]
  | b :: rest =>
      if Qle_bool (bySequence a b) 0%Q then a :: sorted
      else b :: insertSorted a rest
  end.

Definition sort (nodes : list RoadmapNode) : list RoadmapNode :=
  fold_right insertSorted [] nodes.

(** The [forEach] that renumbers the sorted nodes, from [index] on. *)
Fixpoint restamp (index : nat) (nodes : list RoadmapNode)
  : list RoadmapNode :=
  match nodes with
  | [] => []
  | node :: rest =>
      {| id := id node;
         title := show (index + 1) ++ ". " ++ stripNumberPrefix (title node);
         description := description node;
         children := children node;
         sequence := ofNat (index + 1);
         timeNeeded := timeNeeded node;
         completed := completed node;
         timeConsumed := timeConsumed node;
         position := position node |} :: restamp (S index) rest
  end.

(** What generateRoadmap does with the raw elements. *)
Definition processNodes (roadmap : list value) : list RoadmapNode :=
  restamp 0 (sort (mapNodes roadmap 0 roadmap)).

(** The repair pass for any [JSON.parse]: from the text of the response
    to the node list. *)
Definition repairWith (JSON_parse : string -> string + value)
  (text : string) : JsError + list RoadmapNode :=
  match parseResponseWith JSON_parse text with
  | inl e => inl e
  | inr parsedResponse =>
      match nodesOf parsedResponse with
      | inl e => inl e
      | inr roadmap => inr (processNodes roadmap)
      end
  end.

(** The repair pass with [jsonParse] for [JSON.parse]. *)
Definition repair (text : string) : JsError + list RoadmapNode :=
  match parseResponse text with
  | inl e => inl e
  | inr parsedResponse =>
      match nodesOf parsedResponse with
      | inl e => inl e
      | inr roadmap => inr (processNodes roadmap)
      end
  end.

(** *** generateRoadmap *)

Inductive Level : Type := beginner | intermediate | advanced.

Definition levelName (level : Level) : string :=
  match level with
  | beginner => "beginner"
  | intermediate => "intermediate"
  | advanced => "advanced"
  end.

Inductive RoadmapType : Type := weekByWeek | topicWise.

(** What [axios.post] is called with. *)
Record Request : Type := mkRequest {
  url : string;
  model : string;
  systemContent : string;
  userContent : string;
  authorization : string;
  timeout : Z
}.

(** How the awaited [axios.post] ends: with the body of a response of
    status 2xx, or rejected with an error, which carries the response
    when the service answered with another status. *)
Inductive Outcome : Type :=
| Fulfilled (body : value)
| Rejected (error : JsError).

(** The world outside the module. *)
Record Env : Type := mkEnv {
  GROQ_API_KEY : option string;
  NODE_ENV : option string;
  axios_post : Request -> Outcome;
  Math_random : nat -> number
}.

Definition nodeBand (level : Level) : string :=
  match level with
  | beginner => "8-10"
  | intermediate => "11-15"
  | advanced => "15-18"
  end.

Definition roadmapPrompt (prompt : string) (level : Level) : string :=
  js "
As an expert JSON generator for learning roadmaps, create a valid JSON object with a nodes array for a '"
  ++ prompt ++ js "' learning roadmap.

RESPONSE FORMAT:
{
  'nodes': [
    {
      'id': 'node_1',
      'title': '1. First Topic',
      'description': ['Point 1', 'Point 2', 'Point 3'],
      'children': ['node_2', 'node_3'],
      'sequence': 1,
      'timeNeeded': 4
    }
  ]
}

REQUIREMENTS:
- ALL nodes must have: id, title, description (array), children (array), sequence (number), timeNeeded (hours)
- id format: 'node_X' where X is a number
- title format: must start with sequence number (e.g., '1. Introduction')
- For " ++ levelName level ++ " level: create " ++ nodeBand level ++ " nodes
- Ensure proper progression from fundamentals to advanced topics
- Maximum 2 child nodes per parent
- For time allocation: beginner (1-4h), intermediate (2-6h), advanced (4-10h)

Generate a complete, coherent roadmap for learning " ++ prompt
  ++ " at a " ++ levelName level ++ " level.".

Definition systemMessage : string :=
  js "You are a JSON generator API that ONLY outputs valid JSON objects. 
CRITICAL: Your entire response must be a properly formatted JSON object with the structure {'nodes': [...]}.
Do not include ANY explanation text, markdown formatting, or code blocks.
Only the raw JSON is allowed in your response.".

Definition buildRequest (key prompt : string) (level : Level) : Request :=
  {| url := "https://api.groq.com/openai/v1/chat/completions";
     model := "mistral-saba-24b";
     systemContent := systemMessage;
     userContent := roadmapPrompt prompt level;
     authorization := "Bearer " ++ key;
     timeout := 30000%Z |}.

Definition keyMissing : string :=
  "GROQ_API_KEY is not configured in environment variables".
Definition invalidResponse : string := "Invalid response from Groq API".
Definition trimNotAFunction : string :=
  "response.data.choices[0].message.content.trim is not a function".

(** [response.data?.choices?.[0]?.message?.content] *)
Definition contentOf (body : value) : value :=
  getOpt (getOpt (firstOpt (getOpt body "choices")) "message") "content".

(** What follows the request in the [try] block. *)
Definition readResponse (body : value) : JsError + list RoadmapNode :=
  let content := contentOf body in
  if negb (truthy content) then inl (Error invalidResponse)
  else
    match content with
    | Str s => repair (trim s)
    | _ => inl (Error trimNotAFunction)
    end.

(** The [try] block: the requests it sent, and how it ended. *)
Definition tryBlock (env : Env) (prompt : string) (level : Level)
  : list Request * (JsError + list RoadmapNode) :=
  match validatePrompt prompt with
  | inl e => ([], inl e)
  | inr _ =>
      match GROQ_API_KEY env with
      | Some (String c k) =>
          let request := buildRequest (String c k) prompt level in
          ([request],
           match axios_post env request with
           | Fulfilled body => readResponse body
           | Rejected e => inl e
           end)
      | _ => ([], inl (Error keyMissing))
      end
  end.

Definition defaultMessage : string := "Failed to generate roadmap".
Definition badRequest : string :=
  "The AI service couldn't process this request. Please try again with different parameters.".
Definition unauthorized : string := "Authentication failed".
Definition rateLimited : string :=
  "Too many requests. Please try again later.".

(** [error.response?.status === code] *)
Definition statusIs (error : JsError) (code : nat) : bool :=
  match response error with
  | Some r => (status r =? code)%nat
  | None => false
  end.

(** The [catch] block. *)
Definition catchBlock (env : Env) (prompt : string) (level : Level)
           (error : JsError) : JsError + list RoadmapNode :=
  let errorMessage :=
    if nonEmpty (message error) then message error else defaultMessage in
  if statusIs error 400 then
    match NODE_ENV env with
    | Some mode =>
        if mode =? "development"
        then inr (createFallbackNodes prompt (levelName level)
                                      (Math_random env))
        else inl (Error badRequest)
    | None => inl (Error badRequest)
    end
  else
    inl (Error (if statusIs error 401 then unauthorized
                else if statusIs error 429 then rateLimited
                else errorMessage)).

(** [generateRoadmap(prompt, level, roadmapType)]: the requests sent to
    the service, and the nodes returned or the error thrown. *)
Definition generateRoadmap (env : Env) (prompt : string) (level : Level)
           (roadmapType : RoadmapType)
  : list Request * (JsError + list RoadmapNode) :=
  let '(sent, outcome) := tryBlock env prompt level in
  (sent,
   match outcome with
   | inr processedNodes => inr processedNodes
   | inl error => catchBlock env prompt level error
   end).

End Ai.

(* ================================================================= *)
(** ** lib/db.ts *)

Module Db.
Import Ai.

(** The two variables of [process.env] the module reads. *)
Record ProcessEnv : Type := mkProcessEnv {
  MONGODB_URI : option string;
  MONGO_URI : option string
}.

Definition uriMissing : string :=
  "Please define the MONGODB_URI or MONGO_URI environment variable inside .env.local".

(** [process.env.MONGODB_URI || process.env.MONGO_URI] *)
Definition configuredURI (env : ProcessEnv) : option string :=
  match MONGODB_URI env with
  | Some (String c r) => Some (String c r)
  | _ => MONGO_URI env
  end.

Definition isQuote (c : ascii) : bool :=
  Ascii.eqb c "'" || Ascii.eqb c dquote.

(** A line terminator, which the point of a regular expression does not
    match: LF or CR. *)
Definition isLineTerminator (c : ascii) : bool :=
  (code c =? 10)%nat || (code c =? 13)%nat.

(** [s] is a run of code units other than line terminators followed by
    one quote, the last code unit of [s]: the run. *)
Fixpoint quotedTail (s : string) : option string :=
  match s with
  | EmptyString => None
  | String c EmptyString => if isQuote c then Some EmptyString else None
  | String c r =>
      if isLineTerminator c then None
      else match quotedTail r with
           | Some middle => Some (String c middle)
           | None => None
           end
  end.

(** The [replace] that strips the quotes: a string that starts with an
    apostrophe or a double quote, ends with one of the two, and has no
    line terminator between them becomes what is between them; any other
    string is left as it is. *)
Definition cleanQuotes (uri : string) : string :=
  match uri with
  | EmptyString => uri
  | String q rest =>
      if isQuote q
      then match quotedTail rest with
           | Some middle => middle
           | None => uri
           end
      else uri
  end.

(** What loading the module computes: [cleanURI], or the error it throws
    when neither variable is set. *)
Definition cleanURI (env : ProcessEnv) : JsError + string :=
  match configuredURI env with
  | Some (String c r) => inr (cleanQuotes (String c r))
  | _ => inl (Error uriMissing)
  end.

Section Connect.

(** The value [mongoose.connect] resolves to. *)
Variable Connection : Type.

(** [global.mongoose].  A promise is what awaiting it gives: the
    connection, or the error it is rejected with. *)
Record MongooseCache : Type := mkCache {
  conn : option Connection;
  promise : option (JsError + Connection)
}.

(** The cache, and how many times [mongoose.connect] was called. *)
Record DbState : Type := mkDbState {
  cached : MongooseCache;
  attempts : nat
}.

Definition initialState : DbState :=
  {| cached := {| conn := None; promise := None |}; attempts := 0 |}.

(** [connectDB()], its caller awaiting it before the next call;
    [mongooseConnect k] is how the [k]-th call of [mongoose.connect]
    ends. *)
Definition connectDB (mongooseConnect : nat -> JsError + Connection)
           (st : DbState) : (JsError + Connection) * DbState :=
  match conn (cached st) with
  | Some c => (inr c, st)
  | None =>
      let '(awaited, calls) :=
        match promise (cached st) with
        | Some p => (p, attempts st)
        | None => (mongooseConnect (attempts st), S (attempts st))
        end in
      match awaited with
      | inr c =>
          (inr c,
           {| cached := {| conn := Some c; promise := Some awaited |};
              attempts := calls |})
      | inl e =>
          (inl e,
           {| cached := {| conn := None; promise := None |};
              attempts := calls |})
      end
  end.

(** A run of calls of [connectDB], each awaited: what each returned, and
    the state after the last. *)
Fixpoint connectTimes (mongooseConnect : nat -> JsError + Connection)
         (n : nat) (st : DbState) : list (JsError + Connection) * DbState :=
  match n with
  | O => ([], st)
  | S m =>
      let '(r, st1) := connectDB mongooseConnect st in
      let '(rs, st2) := connectTimes mongooseConnect m st1 in
      (r :: rs, st2)
  end.

End Connect.

Arguments conn {Connection} _.
Arguments promise {Connection} _.
Arguments cached {Connection} _.
Arguments attempts {Connection} _.
Arguments initialState {Connection}.
Arguments connectDB {Connection} _ _.
Arguments connectTimes {Connection} _ _ _.

End Db.

(* ================================================================= *)
(** ** components/NodeDetailsPanel.tsx *)

Module Panel.
Import Ai.

(** [description.join(sep)] of an array of strings. *)
Fixpoint join (sep : string) (parts : list string) : string :=
  match parts with
  | [] => EmptyString
  | [last] => last
  | part :: rest => part ++ sep ++ join sep rest
  end.

Definition newline : ascii := "010"%char.

(** The value of the text area for the description. *)
Definition descriptionText (description : list string) : string :=
  join (String newline EmptyString) description.

(** The description the [onChange] of the text area stores. *)
Definition descriptionOfText (text : string) : list string :=
  split newline text.

End Panel.

(* ================================================================= *)
(** ** auth.ts *)

Module Auth.
Import Ai.

(** A document of the [User] collection, with the fields the module
    reads. *)
Module User.
Record t : Type := make {
  firstName : string;
  lastName : string;
  email : string;
  role : string;
  password : option string;
  _id : string
}.
End User.

(** What the sign-in form sends. *)
Module Credentials.
Record t : Type := make {
  email : option string;
  password : option string;
  role : option string
}.
End Credentials.

(** What [authorize] returns. *)
Module UserData.
Record t : Type := make {
  firstName : string;
  lastName : string;
  email : string;
  role : string;
  id : string
}.
End UserData.

(** The user an identity provider reports. *)
Module Profile.
Record t : Type := make {
  email : option string;
  name : option string;
  image : option string;
  id : option string
}.
End Profile.

(** The document [User.create] is given. *)
Module NewUser.
Record t : Type := make {
  email : option string;
  firstName : string;
  lastName : string;
  name : option string;
  image : option string;
  authProviderId : option string;
  role : string
}.
End NewUser.

(** The calls made to the collaborators. *)
Inductive Call : Type :=
| ConnectDB
| FindOne (email : option string)
| Compare (password hash : string)
| Create (doc : NewUser.t).

Section Flows.

Variable Connection : Type.

(** The collaborators: how each call of [mongoose.connect] ends, and
    what [User.findOne], bcrypt's [compare] and [User.create] give. *)
Record World : Type := mkWorld {
  mongooseConnect : nat -> JsError + Connection;
  findOne : option string -> JsError + option User.t;
  compare : string -> string -> JsError + bool;
  create : NewUser.t -> JsError + unit
}.

(** A flow: from the state of the connection cache to the calls made,
    the value returned or the error thrown, and the state after. *)
Definition Flow (A : Type) : Type :=
  Db.DbState Connection -> list Call * (JsError + A) * Db.DbState Connection.

Definition ret {A : Type} (a : A) : Flow A := fun st => ([], inr a, st).

Definition throw {A : Type} (e : JsError) : Flow A :=
  fun st => ([], inl e, st).

Definition bind {A B : Type} (m : Flow A) (k : A -> Flow B) : Flow B :=
  fun st =>
    match m st with
    | (calls, inl e, st1) => (calls, inl e, st1)
    | (calls, inr a, st1) =>
        match k a st1 with
        | (calls', r, st2) => ((calls ++ calls')%list, r, st2)
        end
    end.

(** An awaited call of a collaborator. *)
Definition await {A : Type} (c : Call) (outcome : JsError + A) : Flow A :=
  fun st => ([c], outcome, st).

(** [await connectDB()] *)
Definition connect (w : World) : Flow Connection :=
  fun st =>
    match Db.connectDB (mongooseConnect w) st with
    | (r, st1) => ([ConnectDB], r, st1)
    end.

(** [try { m } catch (error) { throw new Error(msg) }] *)
Definition rethrowAs {A : Type} (msg : string) (m : Flow A) : Flow A :=
  fun st =>
    match m st with
    | (calls, inl _, st1) => (calls, inl (Error msg), st1)
    | done => done
    end.

End Flows.

Arguments mkWorld {Connection} _ _ _ _.
Arguments mongooseConnect {Connection} _ _.
Arguments findOne {Connection} _ _.
Arguments compare {Connection} _ _ _.
Arguments create {Connection} _ _.
Arguments ret {Connection A} _ _.
Arguments throw {Connection A} _ _.
Arguments bind {Connection A B} _ _ _.
Arguments await {Connection A} _ _ _.
Arguments connect {Connection} _ _.
Arguments rethrowAs {Connection A} _ _ _.

Notation "x <- m ;; k" := (bind m (fun x => k))
  (at level 61, m at next level, right associativity).

Definition provideBoth : string := "Please provide both email and password".
Definition noAccount : string := "No account found with this email".
Definition invalidLogin : string := "Invalid email or password".
Definition noMatch : string := "Password did not match".
Definition creating : string := "Error while creating user".

(** [role ? ` as a ${role}` : ''] *)
Definition asRole (role : option string) : string :=
  match role with
  | Some (String c r) => " as a " ++ String c r
  | _ => ""
  end.

Definition wrongRole (registered : string) : string :=
  "This account is registered as a " ++ registered
  ++ ". Please use the correct login option.".

(** [role && user.role !== role] *)
Definition roleDiffers (role : option string) (registered : string) : bool :=
  match role with
  | Some (String c r) => negb (registered =? String c r)
  | _ => false
  end.

(** [authorize(credentials)] of the credentials provider. *)
Definition authorize {Connection : Type} (w : World Connection)
           (credentials : option Credentials.t) : Flow Connection UserData.t :=
  let email :=
    match credentials with Some c => Credentials.email c | None => None end in
  let password :=
    match credentials with Some c => Credentials.password c | None => None end in
  let role :=
    match credentials with Some c => Credentials.role c | None => None end in
  match email, password with
  | Some (String e0 e), Some (String p0 p) =>
      _ <- connect w ;;
      found <- await (FindOne (Some (String e0 e)))
                     (findOne w (Some (String e0 e))) ;;
      match found with
      | None => throw (Error (noAccount ++ asRole role))
      | Some user =>
          match User.password user with
          | Some (String h0 h) =>
              isMatched <- await (Compare (String p0 p) (String h0 h))
                                 (compare w (String p0 p) (String h0 h)) ;;
              if negb isMatched then throw (Error noMatch)
              else if roleDiffers role (User.role user)
                   then throw (Error (wrongRole (User.role user)))
                   else ret {| UserData.firstName := User.firstName user;
                               UserData.lastName := User.lastName user;
                               UserData.email := User.email user;
                               UserData.role := User.role user;
                               UserData.id := User._id user |}
          | _ => throw (Error invalidLogin)
          end
      end
  | _, _ => throw (Error provideBoth)
  end.

(** [(name || "").split(" ")], and the two names taken from it, each
    with the default [""]. *)
Definition nameParts (name : option string) : list string :=
  split " " match name with Some n => n | None => "" end.

Definition newUser (user : Profile.t) : NewUser.t :=
  {| NewUser.email := Profile.email user;
     NewUser.firstName := nth 0 (nameParts (Profile.name user)) "";
     NewUser.lastName := nth 1 (nameParts (Profile.name user)) "";
     NewUser.name := Profile.name user;
     NewUser.image := Profile.image user;
     NewUser.authProviderId := Profile.id user;
     NewUser.role := "user" |}.

(** The body of the [try] of the google and github branches of the
    [signIn] callback. *)
Definition provision {Connection : Type} (w : World Connection)
           (user : Profile.t) : Flow Connection bool :=
  _ <- connect w ;;
  alreadyUser <- await (FindOne (Profile.email user))
                       (findOne w (Profile.email user)) ;;
  match alreadyUser with
  | Some _ => ret true
  | None =>
      _ <- await (Create (newUser user)) (create w (newUser user)) ;;
      ret true
  end.

(** [account?.provider === name] *)
Definition providerIs (provider : option string) (name : string) : bool :=
  match provider with
  | Some p => p =? name
  | None => false
  end.

(** The [signIn] callback; [provider] is [account?.provider]. *)
Definition signIn {Connection : Type} (w : World Connection)
           (user : Profile.t) (provider : option string)
  : Flow Connection bool :=
  if providerIs provider "google" then rethrowAs creating (provision w user)
  else if providerIs provider "github"
       then rethrowAs creating (provision w user)
       else if providerIs provider "credentials" then ret true
            else ret false.

(** The fields of the token and of the session user the callbacks
    touch. *)
Module Token.
Record t : Type := make {
  sub : option string;
  role : option string
}.
End Token.

Module SessionUser.
Record t : Type := make {
  name : option string;
  email : option string;
  image : option string;
  id : option string;
  role : option string
}.
End SessionUser.

(** The [jwt] callback; [user] is the user of a sign-in, with its role,
    or [None] on the later calls. *)
Definition jwt (token : Token.t) (user : option (option string))
  : Token.t :=
  match user with
  | Some userRole => {| Token.sub := Token.sub token; Token.role := userRole |}
  | None => token
  end.

(** The [session] callback, on the user of the session. *)
Definition session (sessionUser : SessionUser.t) (token : option Token.t)
  : SessionUser.t :=
  match token with
  | Some tok =>
      match Token.sub tok, Token.role tok with
      | Some (String s0 s), Some (String r0 r) =>
          {| SessionUser.name := SessionUser.name sessionUser;
             SessionUser.email := SessionUser.email sessionUser;
             SessionUser.image := SessionUser.image sessionUser;
             SessionUser.id := Some (String s0 s);
             SessionUser.role := Some (String r0 r) |}
      | _, _ => sessionUser
      end
  | None => sessionUser
  end.

End Auth.

(* ================================================================= *)
(** ** The vocabulary of the specification *)

Module Spec.
Import Ai.

(** An InvalidPrompt error: one of the three messages of the validator. *)
Definition InvalidPrompt (e : JsError) : Prop :=
  response e = None /\
  (message e = tooShort \/ message e = tooLong \/ message e = notATopic).

(** The number of nodes the fallback generator makes at a level. *)
Definition nodeCountOf (level : Level) : nat :=
  match level with
  | beginner => 8
  | intermediate => 12
  | advanced => 15
  end.

(** The ids of the two nodes after position [i], or of as many as the
    list has. *)
Definition nextTwo (nodes : list RoadmapNode) (i : nat) : list value :=
  map id (firstn 2 (skipn (i + 1) nodes)).

(** [text] parses to [v]: as a whole, or else by its brace span. *)
Definition Parses (text : string) (v : value) : Prop :=
  parse text = Some v \/
  (parse text = None /\
   exists span, matchBraces text = Some span /\ parse span = Some v).

(** Neither [text] nor its brace span, if it has one, parses. *)
Definition Unparsable (text : string) : Prop :=
  parse text = None /\
  forall span, matchBraces text = Some span -> parse span = None.

(** [span] is the brace span of [text]: it runs from the first opening
    brace of [text] to the last closing brace after it. *)
Definition BraceSpan (text span : string) : Prop :=
  exists before body after,
    text = before ++ "{" ++ body ++ "}" ++ after /\
    span = "{" ++ body ++ "}" /\
    occurs "{" before = false /\ occurs "}" after = false.

(** [JSON_parse] gives [v] for [text]: for the whole of it, or else for
    its brace span. *)
Definition ParsesWith (JSON_parse : string -> string + value)
  (text : string) (v : value) : Prop :=
  JSON_parse text = inr v \/
  (exists message span,
      JSON_parse text = inl message /\
      BraceSpan text span /\ JSON_parse span = inr v).

(** [JSON_parse] throws on [text], with [message], and on the brace span
    of [text] if it has one. *)
Definition UnparsableWith (JSON_parse : string -> string + value)
  (text message : string) : Prop :=
  JSON_parse text = inl message /\
  forall span, BraceSpan text span -> exists m, JSON_parse span = inl m.

(** [v] holds the non-empty array [raw] under the key [nodes]. *)
Definition HasNodes (v : value) (raw : list value) : Prop :=
  get v "nodes" = Some (Arr raw) /\ raw <> [].

Definition ParseError (e : JsError) : Prop :=
  exists detail, e = Error (parseFailed ++ detail).

Definition FormatError (e : JsError) : Prop :=
  e = Error missingNodes \/ e = Error emptyNodes.

(** A node that claims no progress and has a description. *)
Definition Fresh (n : RoadmapNode) : Prop :=
  description n <> [] /\ completed n = false /\ timeConsumed n = 0%Q.

End Spec.

(* ================================================================= *)
(** ** More vocabulary, for the properties beyond the specification *)

Module Terms.
Import Ai.

(** Every code unit of [s] is white space. *)
Fixpoint allWhiteSpace (s : string) : bool :=
  match s with
  | EmptyString => true
  | String c r => isWhiteSpace c && allWhiteSpace r
  end.

(** Ascending [sequence] values. *)
Definition bySequenceLe (a b : RoadmapNode) : Prop :=
  (sequence a <= sequence b)%Q.

(** A raw element has the id [childId]. *)
Definition hasRawId (roadmap : list value) (childId : value) : bool :=
  existsb (fun n => match get n "id" with
                    | Some rawId => strictEq rawId childId
                    | None => false
                    end) roadmap.

(** The errors the [try] block throws by itself have a message and no
    response. *)
Definition Plain (e : JsError) : Prop :=
  response e = None /\ nonEmpty (message e) = true.

(** No code unit of [s] is a line terminator. *)
Fixpoint singleLine (s : string) : bool :=
  match s with
  | EmptyString => true
  | String c r => negb (Db.isLineTerminator c) && singleLine r
  end.

(** How many of the calls [from], [from + 1], ... of [mongoose.connect],
    [n] of them at most, fail before the first that succeeds. *)
Fixpoint leadingFailures {Connection : Type}
         (mongooseConnect : nat -> JsError + Connection)
         (from n : nat) : nat :=
  match n with
  | O => O
  | S m =>
      match mongooseConnect from with
      | inl _ => S (leadingFailures mongooseConnect (S from) m)
      | inr _ => O
      end
  end.

(** An account, its credentials and collaborators that answer, for the
    examples. *)
Definition ada : Auth.User.t :=
  {| Auth.User.firstName := "Ada"; Auth.User.lastName := "Lovelace";
     Auth.User.email := "ada@example.org"; Auth.User.role := "admin";
     Auth.User.password := Some "$2a$10$hash"; Auth.User._id := "u1" |}.

Definition adaLogin : Auth.Credentials.t :=
  {| Auth.Credentials.email := Some "ada@example.org";
     Auth.Credentials.password := Some "secret";
     Auth.Credentials.role := Some "admin" |}.

Definition adaProfile : Auth.Profile.t :=
  {| Auth.Profile.email := Some "ada@example.org";
     Auth.Profile.name := Some "Ada King Lovelace";
     Auth.Profile.image := None;
     Auth.Profile.id := Some "g-1" |}.

(** A store that holds [ada] alone, or nobody. *)
Definition store (known : bool) : Auth.World unit :=
  Auth.mkWorld
    (fun _ => inr tt)
    (fun email => inr (if known then Some ada else None))
    (fun password hash => inr (password =? "secret"))
    (fun doc => inr tt).

(** A field of the form was filled in. *)
Definition given (field : option string) : bool :=
  match field with
  | Some (String _ _) => true
  | _ => false
  end.

(** [credentials?.email] and [credentials?.password] *)
Definition emailOf (credentials : option Auth.Credentials.t) : option string :=
  match credentials with
  | Some c => Auth.Credentials.email c
  | None => None
  end.

Definition passwordOf (credentials : option Auth.Credentials.t)
  : option string :=
  match credentials with
  | Some c => Auth.Credentials.password c
  | None => None
  end.

End Terms.

(* ================================================================= *)
(** ** The strings of the numbers the module prints *)

Module NumberFacts.
Import Ai.

Example show_indices :
  map show (seq 1 15)
  = [ "1"; "2"; "3"; "4"; "5"; "6"; "7"; "8"; "9"; "10"; "11"; "12"; "13";
      "14"; "15" ].
Proof. reflexivity. Qed.

Example toString_decimals :
  map toString [ (3 # 2)%Q; (-7 # 4)%Q; (1 # 1000)%Q; inject_Z (10 ^ 21) ]
  = [ "1.5"; "-1.75"; "0.001"; "1e+21" ].
Proof. vm_compute. reflexivity. Qed.

Example parse_object :
  parse (js "{'nodes':[{'id':'node_1','sequence':2.5e1,'done':false}]}")
  = Some (Obj [("nodes",
                Arr [Obj [("id", Str "node_1"); ("sequence", Num 25%Q);
                          ("done", Bool false)]])]).
Proof. vm_compute. reflexivity. Qed.

Example parse_rejects :
  map parse [ "[1,]"; "{'a':1}"; "01"; "tru"; "" ]
  = [ None; None; None; None; None ].
Proof. vm_compute. reflexivity. Qed.

End NumberFacts.

(* ================================================================= *)
(** ** Facts about strings *)

Module StringFacts.

Lemma prefix_iff (k s : string) :
  prefix k s = true <-> exists b, s = k ++ b.
Proof.
  revert s; induction k as [|c k IH]; intros s; simpl.
  - destruct s; split; intros _; try reflexivity; eexists; reflexivity.
  - destruct s as [|d s].
    + split; [discriminate | intros [b Hb]; discriminate].
    + simpl. destruct (ascii_dec c d) as [->|Hne].
      * rewrite IH. split; intros [b Hb]; exists b.
        -- now rewrite Hb.
        -- now inversion Hb.
      * split; [discriminate | intros [b Hb]; inversion Hb; congruence].
Qed.

Lemma includes_unfold (s k : string) :
  includes s k =
  prefix k s || match s with
                | EmptyString => false
                | String _ r => includes r k
                end.
Proof. destruct s; reflexivity. Qed.

Lemma includes_iff (s k : string) :
  includes s k = true <-> Substring k s.
Proof.
  unfold Substring. split.
  - induction s as [|c s IH]; rewrite includes_unfold, orb_true_iff;
      intros [H|H].
    + apply prefix_iff in H as [b ->]. now exists "", b.
    + discriminate.
    + apply prefix_iff in H as [b Hb]. now exists "", b.
    + destruct (IH H) as (a & b & ->). now exists (String c a), b.
  - intros (a & b & ->). induction a as [|c a IH].
    + rewrite includes_unfold, orb_true_iff. left.
      apply prefix_iff. now exists b.
    + change (String c a ++ k ++ b) with (String c (a ++ k ++ b)).
      rewrite includes_unfold, IH. apply orb_true_r.
Qed.

Lemma includes_false_iff (s k : string) :
  includes s k = false <-> ~ Substring k s.
Proof.
  rewrite <- includes_iff. destruct (includes s k); intuition congruence.
Qed.

End StringFacts.

(* ================================================================= *)
(** ** The prompt validator *)

Module Validator.
Import Ai Spec StringFacts.

Lemma keywords_nonEmpty :
  forall k, In k invalidKeywords -> nonEmpty k = true.
Proof.
  apply Forall_forall. unfold invalidKeywords.
  repeat constructor.
Qed.

(** C5.  The validator returns [true] on every prompt whose lower-cased,
    trimmed form has between 3 and 200 characters and contains no
    keyword of the blocklist, and throws on every prompt for which that
    form is shorter than 3, longer than 200, or contains a keyword. *)
Theorem validatePrompt_exact (prompt : string) :
  let t := trim (toLowerCase prompt) in
  (3 <= String.length t <= 200 ->
   (forall k, In k invalidKeywords -> ~ Substring k t) ->
   validatePrompt prompt = inr true)
  /\
  (String.length t < 3 \/ 200 < String.length t \/
   (exists k, In k invalidKeywords /\ Substring k t) ->
   exists e, validatePrompt prompt = inl e /\ InvalidPrompt e).
Proof.
  intros t. unfold validatePrompt. fold t.
  destruct (Nat.ltb_spec (String.length t) 3) as [Hs|Hs].
  { split; [lia|]. intros _. eexists; split; [reflexivity|].
    split; simpl; auto. }
  destruct (Nat.ltb_spec 200 (String.length t)) as [Hl|Hl].
  { split; [lia|]. intros _. eexists; split; [reflexivity|].
    split; simpl; auto. }
  destruct (find (fun keyword => includes t keyword) invalidKeywords)
    as [k|] eqn:Hfind.
  - apply find_some in Hfind as [Hin Hinc].
    rewrite (keywords_nonEmpty k Hin). split.
    + intros _ Hnone. apply includes_iff in Hinc. now elim (Hnone k).
    + intros _. eexists; split; [reflexivity|]. split; simpl; auto.
  - split; [reflexivity|]. intros [H|[H|(k & Hin & Hsub)]]; try lia.
    apply includes_iff in Hsub.
    now rewrite (find_none _ _ Hfind k Hin) in Hsub.
Qed.

Lemma validatePrompt_exact_witness :
  validatePrompt "  Learn Python  " = inr true /\
  (exists e, validatePrompt "What is on TODAY" = inl e /\ InvalidPrompt e).
Proof.
  split.
  - apply (validatePrompt_exact "  Learn Python  ").
    + vm_compute. split; apply Nat.leb_le; reflexivity.
    + intros k Hin. apply includes_false_iff.
      revert k Hin. apply Forall_forall. vm_compute.
      repeat constructor.
  - apply (validatePrompt_exact "What is on TODAY").
    right; right. exists "today". split.
    + vm_compute. tauto.
    + apply includes_iff. reflexivity.
Defined.

End Validator.

(* ================================================================= *)
(** ** The layout *)

Module Layout.
Import Ai.
#[local] Open Scope Q_scope.

Lemma pow2_inject (level : nat) :
  pow 2%Q level == inject_Z (2 ^ Z.of_nat level).
Proof.
  unfold pow. symmetry. apply (Zpower_Qpower 2). lia.
Qed.

Lemma min_inject (a b : number) (m n : Z) :
  a == inject_Z m -> b == inject_Z n -> min a b == inject_Z (Z.min m n).
Proof.
  intros Ha Hb. unfold min.
  destruct (Qle_bool a b) eqn:E.
  - apply Qle_bool_iff in E. rewrite Ha, Hb, <- Zle_Qle in E.
    rewrite Z.min_l by assumption. exact Ha.
  - assert (~ (a <= b)%Q) as N by (rewrite <- Qle_bool_iff; congruence).
    rewrite Ha, Hb, <- Zle_Qle in N.
    rewrite Z.min_r by lia. exact Hb.
Qed.

Lemma half_le_inject (a b : number) (m n : Z) :
  a == inject_Z m -> b == inject_Z n ->
  Qle_bool (a / 2)%Q b = (m <=? 2 * n)%Z.
Proof.
  intros Ha Hb.
  assert ((a / 2 <= b)%Q <-> (m <= 2 * n)%Z) as H.
  { rewrite Ha, Hb. rewrite Zle_Qle, inject_Z_mult.
    change (inject_Z 2) with 2%Q.
    split; intros H.
    - apply Qmult_le_l with (z := (1 # 2)%Q); [reflexivity|].
      setoid_replace ((1 # 2) * (2 * inject_Z n))%Q with (inject_Z n)
        by ring.
      setoid_replace ((1 # 2) * inject_Z m)%Q with (inject_Z m / 2)%Q
        by field.
      exact H.
    - apply Qmult_le_l with (z := (1 # 2)%Q) in H; [|reflexivity].
      setoid_replace ((1 # 2) * (2 * inject_Z n))%Q with (inject_Z n)
        in H by ring.
      setoid_replace ((1 # 2) * inject_Z m)%Q with (inject_Z m / 2)%Q
        in H by field.
      exact H. }
  destruct (Qle_bool (a / 2)%Q b) eqn:E; symmetry.
  - apply Z.leb_le, H, Qle_bool_iff, E.
  - apply Z.leb_gt. apply Z.nle_gt. intros C. apply H in C.
    apply Qle_bool_iff in C. congruence.
Qed.

Lemma level_bounds (index : nat) :
  let level := floorLog2 (index + 1) in
  (2 ^ level <= index + 1 < 2 ^ (level + 1))%nat.
Proof.
  intros level. rewrite Nat.add_1_r with (n := level).
  apply Nat.log2_spec. lia.
Qed.

(** C4.  The layout is a function of [(index, total)] alone; the node of
    index 0 is at [y = TOP_MARGIN = 50]; and for [index < total], with
    [level = floor(log2(index + 1))], [y = level * 100 + 50] and
    [x = (positionInLevel + 1) * baseWidth / (nodesInLevel + 1)
         - baseWidth / 2], moved for [level > 0] by [50 * 1.5^level] to
    the right when [positionInLevel >= nodesInLevel / 2] and to the left
    otherwise. *)
Theorem calculateNodePosition_spec :
  (forall index total index' total',
      index = index' -> total = total' ->
      calculateNodePosition index total
      = calculateNodePosition index' total')
  /\
  (forall total, y (calculateNodePosition 0 total) = TOP_MARGIN)
  /\
  (forall index total, (index < total)%nat ->
     exists level : nat,
       (2 ^ level <= index + 1 < 2 ^ (level + 1))%nat /\
       let width := (2 ^ Z.of_nat level)%Z in
       let positionInLevel := (Z.of_nat index - (width - 1))%Z in
       let nodesInLevel :=
         Z.min width (Z.of_nat total - (width - 1)) in
       let baseWidth := (140 * width)%Z in
       let bias :=
         if (level =? 0)%nat then 0
         else if (nodesInLevel <=? 2 * positionInLevel)%Z
              then 50 * (3 # 2) ^ Z.of_nat level
              else - (50 * (3 # 2) ^ Z.of_nat level) in
       y (calculateNodePosition index total)
       == inject_Z (Z.of_nat level * 100 + 50)
       /\
       x (calculateNodePosition index total)
       == inject_Z (positionInLevel + 1) * inject_Z baseWidth
          / inject_Z (nodesInLevel + 1)
          - inject_Z baseWidth / 2 + bias).
Proof.
  split; [|split].
  - intros index total index' total' -> ->. reflexivity.
  - intros total. reflexivity.
  - intros index total Hlt.
    pose proof (level_bounds index) as Hlevel.
    set (level := floorLog2 (index + 1)) in *. cbv zeta in Hlevel.
    exists level. split; [exact Hlevel|].
    intros width positionInLevel nodesInLevel baseWidth bias.
    assert (Hwidth : (Z.of_nat (2 ^ level) = width)%Z).
    { unfold width. rewrite Nat2Z.inj_pow. reflexivity. }
    assert (Hp : pow 2 level == inject_Z width) by apply pow2_inject.
    assert (Hpos : ofNat index - (pow 2 level - 1)
                   == inject_Z positionInLevel).
    { rewrite Hp. unfold positionInLevel, ofNat, Z.sub.
      rewrite !inject_Z_plus, !inject_Z_opp, !inject_Z_plus.
      change (inject_Z (- (1))) with (- (1)). ring. }
    assert (Hnodes : min (pow 2 level) (ofNat total - (pow 2 level - 1))
                     == inject_Z nodesInLevel).
    { apply min_inject; [exact Hp|].
      rewrite Hp. unfold ofNat, Z.sub.
      rewrite !inject_Z_plus, !inject_Z_opp, !inject_Z_plus.
      change (inject_Z (- (1))) with (- (1)). ring. }
    assert (Hn1 : (1 <= nodesInLevel)%Z) by (unfold nodesInLevel; lia).
    assert (Hden : ~ inject_Z (nodesInLevel + 1) == 0).
    { change 0 with (inject_Z 0). rewrite inject_Z_injective. lia. }
    unfold calculateNodePosition. fold level. cbn [x y]. split.
    + unfold ofNat, VERTICAL_SPACING, TOP_MARGIN.
      rewrite inject_Z_plus, inject_Z_mult. reflexivity.
    + rewrite (half_le_inject _ _ _ _ Hnodes Hpos).
      assert (Hx0 :
        (ofNat index - (pow 2 level - 1) + 1)
        * (MIN_NODE_SPACING * pow 2 level
           / (min (pow 2 level) (ofNat total - (pow 2 level - 1)) + 1))
        - MIN_NODE_SPACING * pow 2 level / 2
        == inject_Z (positionInLevel + 1) * inject_Z baseWidth
           / inject_Z (nodesInLevel + 1) - inject_Z baseWidth / 2).
      { rewrite Hpos, Hnodes, Hp. unfold baseWidth, MIN_NODE_SPACING.
        rewrite !inject_Z_plus, !inject_Z_mult in *.
        change (inject_Z 1) with 1 in *.
        change (inject_Z 140) with 140. field. exact Hden. }
      unfold bias. destruct level as [|l] eqn:El.
      * cbn [Nat.ltb Nat.leb Nat.eqb]. rewrite Hx0. ring.
      * cbn [Nat.ltb Nat.leb Nat.eqb].
        destruct (nodesInLevel <=? 2 * positionInLevel)%Z;
          rewrite Hx0; unfold pow, LEVEL_PADDING; ring.
Qed.

(** The specification's example, [position(2, 7)]. *)
Lemma calculateNodePosition_spec_witness :
  y (calculateNodePosition 2 7) == 150 /\
  x (calculateNodePosition 2 7) == 365 # 3.
Proof.
  destruct calculateNodePosition_spec as (_ & _ & H).
  destruct (H 2%nat 7%nat) as (level & Hlevel & Hy & Hx); [lia|].
  assert (level = 1%nat) as ->.
  { destruct level as [|[|l]]; [cbn in Hlevel; lia | reflexivity |].
    rewrite !Nat.pow_succ_r' in Hlevel.
    pose proof (Nat.pow_nonzero 2 l). lia. }
  split; [rewrite Hy | rewrite Hx]; reflexivity.
Defined.

End Layout.

(* ================================================================= *)
(** ** The fallback generator *)

Module Fallback.
Import Ai Spec.

Lemma createFallbackNodes_unfold prompt level random :
  createFallbackNodes prompt (levelName level) random
  = map (fallbackNode prompt (nodeCountOf level) random)
        (seq 0 (nodeCountOf level)).
Proof. destruct level; reflexivity. Qed.

Lemma nth_error_map_seq {A} (f : nat -> A) (n i : nat) (a : A) :
  nth_error (map f (seq 0 n)) i = Some a -> i < n /\ a = f i.
Proof.
  intros H.
  assert (i < n) as Hi.
  { assert (i < List.length (map f (seq 0 n))) as Hlen
      by (apply nth_error_Some; congruence).
    now rewrite length_map, length_seq in Hlen. }
  split; [exact Hi|].
  rewrite nth_error_map, nth_error_seq in H.
  apply Nat.ltb_lt in Hi. rewrite Hi in H. simpl in H. congruence.
Qed.

Lemma random_hours (r : number) :
  (0 <= r)%Q -> (r < 1)%Q -> (1 <= floor (r * 5)%Q + 1 <= 5)%Z.
Proof.
  intros H0 H1. unfold floor.
  assert (0 <= Qfloor (r * 5))%Z.
  { change 0%Z with (Qfloor 0). apply Qfloor_resp_le.
    apply Qmult_le_0_compat; [exact H0|discriminate]. }
  assert (Qfloor (r * 5) < 5)%Z.
  { rewrite Zlt_Qlt. apply Qle_lt_trans with (y := (r * 5)%Q).
    - apply Qfloor_le.
    - change (inject_Z 5) with (1 * 5)%Q.
      apply Qmult_lt_compat_r; [reflexivity|exact H1]. }
  lia.
Qed.

Lemma beginner_children prompt random (i : nat) :
  i < 6 ->
  children (fallbackNode prompt 8 random i)
  = [Str ("node_" ++ show (i + 2)); Str ("node_" ++ show (i + 3))].
Proof.
  intros Hi.
  do 6 (destruct i as [|i]; [reflexivity|]). lia.
Qed.

(** C3, as the generator has it.  The fallback generator produces 8
    nodes for beginner, 12 for intermediate and 15 for advanced; when
    [Math.random] returns numbers of [0, 1), every [timeNeeded] is an
    integer of [1, 5]; the node at position [i] has the id
    [node_(i+1)]; the last two nodes have no children, and the children
    of an earlier node are taken, in order, from the ids of the next two
    nodes: both of them at the beginner level. *)
Theorem createFallbackNodes_spec
        (prompt : string) (level : Level) (random : nat -> number) :
  (forall i, (0 <= random i)%Q /\ (random i < 1)%Q) ->
  let nodes := createFallbackNodes prompt (levelName level) random in
  let count := nodeCountOf level in
  List.length nodes = count /\
  (forall n, In n nodes ->
     exists hours : Z,
       timeNeeded n = inject_Z hours /\ (1 <= hours <= 5)%Z) /\
  (forall i n, nth_error nodes i = Some n ->
     id n = Str ("node_" ++ show (i + 1)) /\
     (count - 2 <= i -> children n = []) /\
     (i < count - 2 ->
      exists first second : bool,
        children n
        = ((if first then [Str ("node_" ++ show (i + 2))] else [])
           ++ (if second then [Str ("node_" ++ show (i + 3))] else []))%list)
     /\
     (level = beginner -> i < count - 2 ->
      children n
      = [Str ("node_" ++ show (i + 2)); Str ("node_" ++ show (i + 3))])).
Proof.
  intros Hrandom nodes count. subst nodes count.
  rewrite createFallbackNodes_unfold.
  split; [|split].
  - now rewrite length_map, length_seq.
  - intros n Hin. apply in_map_iff in Hin as (i & <- & _).
    eexists; split; [reflexivity|].
    apply random_hours; apply Hrandom.
  - intros i n Hnth. apply nth_error_map_seq in Hnth as [Hi ->].
    split; [reflexivity|]. split; [|split].
    + intros Hlast. cbn [children fallbackNode].
      apply Nat.ltb_ge in Hlast. now rewrite Hlast.
    + intros Hearly. cbn [children fallbackNode].
      apply Nat.ltb_lt in Hearly. rewrite Hearly. cbn [filter].
      exists (withinCount (nodeCountOf level) ("node_" ++ show (i + 2))),
             (withinCount (nodeCountOf level) ("node_" ++ show (i + 3))).
      do 2 destruct (withinCount _ _); reflexivity.
    + intros -> Hearly. now apply beginner_children.
Qed.

Lemma createFallbackNodes_spec_witness :
  let nodes := createFallbackNodes "Python" "beginner" (fun _ => 9 # 10)%Q in
  List.length nodes = 8 /\
  (exists n, nth_error nodes 0 = Some n /\
             children n = [Str "node_2"; Str "node_3"]).
Proof.
  cbv zeta.
  destruct (createFallbackNodes_spec "Python" beginner (fun _ => 9 # 10)%Q)
    as (Hlen & _ & Hnodes).
  - intros _. split; [unfold Qle | unfold Qlt]; simpl; lia.
  - split; [exact Hlen|].
    eexists; split; [reflexivity|].
    refine (proj2 (proj2 (proj2 (Hnodes 0 _ eq_refl))) eq_refl _).
    cbn. lia.
Defined.

(** C3 as the specification states it fails: at the beginner level the
    seventh node has no child, though the eighth node follows it. *)
Lemma createFallbackNodes_not_next_two :
  let nodes := createFallbackNodes "Python" "beginner" (fun _ => 0%Q) in
  exists n,
    nth_error nodes 6 = Some n /\
    children n = [] /\
    nextTwo nodes 6 = [Str "node_8"] /\
    children n <> nextTwo nodes 6.
Proof.
  cbv zeta. eexists. split; [reflexivity|].
  split; [reflexivity|]. split; [reflexivity|]. discriminate.
Qed.

(** At the other two levels the ids of one digit are dropped, for they
    are compared as strings with a count of two digits. *)
Example intermediate_first_node_has_no_children :
  map children
      (firstn 2 (createFallbackNodes "Python" "intermediate" (fun _ => 0%Q)))
  = [[]; []].
Proof. reflexivity. Qed.

End Fallback.

(* ================================================================= *)
(** ** The repair pass *)

Module Repair.
Import Ai Spec.

Lemma parses_or_not (text : string) :
  (exists v, Parses text v) \/ Unparsable text.
Proof.
  unfold Parses, Unparsable.
  destruct (parse text) as [v|] eqn:E.
  - left. exists v. now left.
  - destruct (matchBraces text) as [span|].
    + destruct (parse span) as [v|] eqn:E'.
      * left. exists v. right. split; [reflexivity|]. now exists span.
      * right. split; [reflexivity|]. now intros ? [= <-].
    + right. split; [reflexivity|]. discriminate.
Qed.

Lemma parseResponse_ok (text : string) (v : value) :
  Parses text v -> parseResponse text = inr v.
Proof.
  unfold parseResponse, parseResponseWith, jsonParse.
  intros [-> | (-> & span & -> & ->)]; reflexivity.
Qed.

Lemma parseResponse_fail (text : string) :
  Unparsable text ->
  parseResponse text = inl (Error (parseFailed ++ syntaxErrorMessage)).
Proof.
  unfold parseResponse, parseResponseWith, jsonParse. intros [-> Hspan].
  destruct (matchBraces text) as [span|]; [|reflexivity].
  now rewrite (Hspan span eq_refl).
Qed.

Lemma has_nodes_or_not (v : value) :
  (exists raw, HasNodes v raw) \/ (forall raw, ~ HasNodes v raw).
Proof.
  unfold HasNodes.
  destruct (get v "nodes") as [[| | | | |raw|]|] eqn:E;
    try (right; intros raw [H _]; discriminate).
  destruct raw as [|node raw].
  - right. intros raw [_ []]. congruence.
  - left. eexists. split; [reflexivity|discriminate].
Qed.

Lemma nodesOf_ok (v : value) (raw : list value) :
  HasNodes v raw -> nodesOf v = inr raw.
Proof.
  intros [Hget Hne]. unfold nodesOf. rewrite Hget.
  destruct v; try discriminate.
  destruct raw; [congruence|reflexivity].
Qed.

Lemma nodesOf_fail (v : value) :
  (forall raw, ~ HasNodes v raw) ->
  exists e, nodesOf v = inl e /\ FormatError e.
Proof.
  intros Hnone. unfold nodesOf, FormatError.
  destruct (negb (truthy v)); [eauto|].
  destruct (get v "nodes") as [[| | | | |raw|]|] eqn:E; eauto.
  destruct raw as [|node raw]; [simpl; eauto|].
  elim (Hnone (node :: raw)). split; [exact E|discriminate].
Qed.

Lemma repair_accepts (text : string) (v : value) (raw : list value) :
  Parses text v -> HasNodes v raw ->
  repair text = inr (processNodes raw).
Proof.
  intros Hp Hn. unfold repair.
  now rewrite (parseResponse_ok _ _ Hp), (nodesOf_ok _ _ Hn).
Qed.

(** *** The brace span *)

Lemma fromFirstOpen_skip (before rest : string) :
  occurs "{" before = false ->
  fromFirstOpen (before ++ rest) = fromFirstOpen rest.
Proof.
  induction before as [|c before IH]; simpl; [reflexivity|].
  intros H. apply orb_false_elim in H as [Hc Hb].
  rewrite Hc. now apply IH.
Qed.

Lemma uptoLastClose_none (after : string) :
  occurs "}" after = false -> uptoLastClose after = None.
Proof.
  induction after as [|c after IH]; simpl; [reflexivity|].
  intros H. apply orb_false_elim in H as [Hc Ha].
  now rewrite (IH Ha), Hc.
Qed.

Lemma uptoLastClose_last (inner after : string) :
  occurs "}" after = false ->
  uptoLastClose (inner ++ "}" ++ after) = Some (inner ++ "}").
Proof.
  intros Ha. induction inner as [|c inner IH]; simpl.
  - now rewrite (uptoLastClose_none _ Ha).
  - simpl in IH. now rewrite IH.
Qed.

Lemma matchBraces_wrapped (before body after : string) :
  occurs "{" before = false -> occurs "}" after = false ->
  matchBraces (before ++ "{" ++ body ++ "}" ++ after)
  = Some ("{" ++ body ++ "}").
Proof.
  intros Hb Ha. unfold matchBraces.
  rewrite (fromFirstOpen_skip _ _ Hb). cbn [append fromFirstOpen Ascii.eqb].
  simpl fromFirstOpen.
  exact (uptoLastClose_last (String "{" body) after Ha).
Qed.

Lemma fromFirstOpen_some (text s : string) :
  fromFirstOpen text = Some s ->
  exists before rest,
    text = before ++ s /\ s = String "{" rest /\ occurs "{" before = false.
Proof.
  induction text as [|c text IH]; simpl; [discriminate|].
  destruct (Ascii.eqb c "{") eqn:Ec.
  - intros [= <-]. apply Ascii.eqb_eq in Ec as ->.
    exists EmptyString, text. auto.
  - intros H. destruct (IH H) as (before & rest & -> & -> & Hb).
    exists (String c before), rest. simpl. rewrite Ec. auto.
Qed.

Lemma uptoLastClose_none_inv (s : string) :
  uptoLastClose s = None -> occurs "}" s = false.
Proof.
  induction s as [|c s IH]; simpl; [reflexivity|].
  destruct (uptoLastClose s); [discriminate|].
  destruct (Ascii.eqb c "}"); [discriminate|].
  intros _. now apply IH.
Qed.

Lemma uptoLastClose_some (s p : string) :
  uptoLastClose s = Some p ->
  exists inner after,
    p = inner ++ "}" /\ s = inner ++ "}" ++ after /\
    occurs "}" after = false.
Proof.
  revert p; induction s as [|c s IH]; intros p; simpl; [discriminate|].
  destruct (uptoLastClose s) as [q|] eqn:E.
  - intros [= <-]. destruct (IH q eq_refl) as (inner & after & -> & -> & Ha).
    exists (String c inner), after. auto.
  - destruct (Ascii.eqb c "}") eqn:Ec; [|discriminate].
    intros [= <-]. apply Ascii.eqb_eq in Ec as ->.
    exists EmptyString, s. repeat split. now apply uptoLastClose_none_inv.
Qed.

(** [matchBraces] finds the brace span, and nothing else. *)
Lemma matchBraces_span (text span : string) :
  BraceSpan text span -> matchBraces text = Some span.
Proof.
  intros (before & body & after & -> & -> & Hb & Ha).
  now apply matchBraces_wrapped.
Qed.

Lemma matchBraces_some (text span : string) :
  matchBraces text = Some span -> BraceSpan text span.
Proof.
  unfold matchBraces. destruct (fromFirstOpen text) as [s|] eqn:E;
    [|discriminate].
  intros H.
  destruct (fromFirstOpen_some _ _ E) as (before & rest & -> & -> & Hb).
  destruct (uptoLastClose_some _ _ H) as (inner & after & -> & Hs & Ha).
  destruct inner as [|c inner]; simpl in Hs; [discriminate|].
  injection Hs as <- ->.
  exists before, inner, after. auto.
Qed.

(** *** The first [try], for any [JSON.parse] *)

Section AnyParser.
Variable JSON_parse : string -> string + value.

Lemma parsesWith_or_not (text : string) :
  (exists v, ParsesWith JSON_parse text v) \/
  (exists message, UnparsableWith JSON_parse text message).
Proof.
  unfold ParsesWith, UnparsableWith.
  destruct (JSON_parse text) as [message|v] eqn:E.
  - destruct (matchBraces text) as [span|] eqn:Em.
    + destruct (JSON_parse span) as [m|v] eqn:E'.
      * right. exists message. split; [reflexivity|].
        intros span' Hs. apply matchBraces_span in Hs.
        rewrite Em in Hs. injection Hs as <-. now exists m.
      * left. exists v. right. exists message, span.
        auto using matchBraces_some.
    + right. exists message. split; [reflexivity|].
      intros span Hs. apply matchBraces_span in Hs. congruence.
  - left. exists v. now left.
Qed.

Lemma parseResponseWith_ok (text : string) (v : value) :
  ParsesWith JSON_parse text v -> parseResponseWith JSON_parse text = inr v.
Proof.
  unfold parseResponseWith.
  intros [-> | (message & span & -> & Hs & Hv)]; [reflexivity|].
  now rewrite (matchBraces_span _ _ Hs), Hv.
Qed.

Lemma parseResponseWith_fail (text message : string) :
  UnparsableWith JSON_parse text message ->
  parseResponseWith JSON_parse text = inl (Error (parseFailed ++ message)).
Proof.
  unfold parseResponseWith. intros [-> Hspan].
  destruct (matchBraces text) as [span|] eqn:Em; [|reflexivity].
  destruct (Hspan span (matchBraces_some _ _ Em)) as [m ->]. reflexivity.
Qed.

Lemma repairWith_accepts (text : string) (v : value) (raw : list value) :
  ParsesWith JSON_parse text v -> HasNodes v raw ->
  repairWith JSON_parse text = inr (processNodes raw).
Proof.
  intros Hp Hn. unfold repairWith.
  now rewrite (parseResponseWith_ok _ _ Hp), (nodesOf_ok _ _ Hn).
Qed.

End AnyParser.

(** [repair] is the repair pass read with [jsonParse]. *)
Lemma repair_repairWith (text : string) :
  repair text = repairWith jsonParse text.
Proof. reflexivity. Qed.

(** *** Lengths *)

Lemma length_mapNodes roadmap index nodes :
  List.length (mapNodes roadmap index nodes) = List.length nodes.
Proof.
  revert index; induction nodes as [|node nodes IH]; intros index; simpl;
    [reflexivity | now rewrite IH].
Qed.

Lemma length_insertSorted a sorted :
  List.length (insertSorted a sorted) = S (List.length sorted).
Proof.
  induction sorted as [|b rest IH]; simpl; [reflexivity|].
  destruct (Qle_bool _ _); simpl; [reflexivity | now rewrite IH].
Qed.

Lemma length_sort nodes : List.length (sort nodes) = List.length nodes.
Proof.
  induction nodes as [|a nodes IH]; simpl; [reflexivity|].
  now rewrite length_insertSorted, IH.
Qed.

Lemma length_restamp index nodes :
  List.length (restamp index nodes) = List.length nodes.
Proof.
  revert index; induction nodes as [|node nodes IH]; intros index; simpl;
    [reflexivity | now rewrite IH].
Qed.

Lemma length_processNodes roadmap :
  List.length (processNodes roadmap) = List.length roadmap.
Proof.
  unfold processNodes.
  now rewrite length_restamp, length_sort, length_mapNodes.
Qed.

(** The sort rearranges the nodes and no more. *)
Lemma insertSorted_perm a sorted :
  Permutation (a :: sorted) (insertSorted a sorted).
Proof.
  induction sorted as [|b rest IH]; simpl; [reflexivity|].
  destruct (Qle_bool _ _); [reflexivity|].
  rewrite perm_swap. now constructor.
Qed.

Lemma sort_perm nodes : Permutation nodes (sort nodes).
Proof.
  induction nodes as [|a nodes IH]; simpl; [constructor|].
  rewrite <- insertSorted_perm. now constructor.
Qed.

(** *** The renumbering *)

Lemma nth_error_restamp index nodes i n :
  nth_error (restamp index nodes) i = Some n ->
  exists m,
    nth_error nodes i = Some m /\
    sequence n = ofNat (index + i + 1) /\
    title n = show (index + i + 1) ++ ". " ++ stripNumberPrefix (title m) /\
    id n = id m /\ description n = description m /\
    children n = children m /\ completed n = completed m /\
    timeConsumed n = timeConsumed m.
Proof.
  revert index i; induction nodes as [|node nodes IH]; intros index i.
  - destruct i; discriminate.
  - destruct i as [|i]; simpl.
    + intros [= <-]. exists node. rewrite Nat.add_0_r. simpl. tauto.
    + intros H. apply IH in H as (m & Hm & H).
      exists m. split; [exact Hm|].
      now replace (index + S i) with (S index + i) by lia.
Qed.

Lemma map_sequence_restamp index nodes :
  map sequence (restamp index nodes)
  = map ofNat (seq (index + 1) (List.length nodes)).
Proof.
  revert index; induction nodes as [|node nodes IH]; intros index; simpl;
    [reflexivity|].
  rewrite IH. now replace (S index + 1) with (S (index + 1)) by lia.
Qed.

(** *** One element *)

Lemma filterChildren_kept roadmap children kept :
  filterChildren roadmap children = Some kept ->
  forall childId, In childId kept ->
    In childId children /\
    exists n rawId,
      In n roadmap /\ get n "id" = Some rawId /\
      strictEq rawId childId = true.
Proof.
  assert (Hsome : forall childId,
             someHasId roadmap childId = Some true ->
             exists n rawId, In n roadmap /\ get n "id" = Some rawId /\
                             strictEq rawId childId = true).
  { intros childId. induction roadmap as [|n rest IH]; simpl;
      [discriminate|].
    destruct (get n "id") as [rawId|] eqn:E; [|discriminate].
    destruct (strictEq rawId childId) eqn:Eq.
    - intros _. exists n, rawId. auto.
    - intros H. destruct (IH H) as (m & r & Hin & Hm). exists m, r. auto. }
  revert kept; induction children as [|c rest IH]; simpl; intros kept.
  - intros [= <-] ? [].
  - destruct (someHasId roadmap c) as [keep|] eqn:Ec; [|discriminate].
    destruct (filterChildren roadmap rest) as [kept'|]; [|discriminate].
    intros [= <-] childId Hin.
    destruct keep.
    + destruct Hin as [<-|Hin]; [split; auto|].
      destruct (IH _ eq_refl _ Hin); auto.
    + destruct (IH _ eq_refl _ Hin); auto.
Qed.

(** What every node has that the [try] block of the callback returns. *)
Lemma processNode_fields roadmap node index n :
  processNode roadmap node index = Some n ->
  description n <> [] /\ completed n = false /\ timeConsumed n = 0%Q /\
  exists rawChildren,
    filterChildren roadmap rawChildren = Some (children n).
Proof.
  unfold processNode. intros H.
  repeat match type of H with
         | match ?d with _ => _ end = _ => destruct d eqn:?; try discriminate
         end.
  injection H as <-. cbn [description completed timeConsumed children].
  repeat split; eauto.
  match goal with
  | |- (if (List.length ?d =? 0)%nat then _ else _) <> [] =>
      destruct d; simpl; discriminate
  end.
Qed.

Lemma mapNodes_fresh roadmap index nodes :
  Forall Fresh (mapNodes roadmap index nodes).
Proof.
  revert index; induction nodes as [|node nodes IH]; intros index; simpl;
    constructor; [|apply IH].
  destruct (processNode roadmap node index) as [n|] eqn:E.
  - apply processNode_fields in E. unfold Fresh. tauto.
  - unfold Fresh. simpl. repeat split. discriminate.
Qed.

Lemma restamp_fresh index nodes :
  Forall Fresh nodes -> Forall Fresh (restamp index nodes).
Proof.
  intros H; revert index; induction H as [|n nodes Hn _ IH];
    intros index; simpl; constructor; [exact Hn | apply IH].
Qed.

Lemma processNodes_fresh roadmap : Forall Fresh (processNodes roadmap).
Proof.
  unfold processNodes. apply restamp_fresh.
  eapply Permutation_Forall; [apply sort_perm | apply mapNodes_fresh].
Qed.

Lemma repair_inr (text : string) (nodes : list RoadmapNode) :
  repair text = inr nodes ->
  exists v raw,
    Parses text v /\ HasNodes v raw /\ nodes = processNodes raw.
Proof.
  intros H.
  destruct (parses_or_not text) as [[v Hv]|Hu].
  - destruct (has_nodes_or_not v) as [[raw Hraw]|Hnone].
    + exists v, raw. rewrite (repair_accepts _ _ _ Hv Hraw) in H.
      injection H as <-. auto.
    + unfold repair in H. rewrite (parseResponse_ok _ _ Hv) in H.
      destruct (nodesOf_fail v Hnone) as (e & He & _).
      rewrite He in H. discriminate.
  - unfold repair in H. rewrite (parseResponse_fail _ Hu) in H.
    discriminate.
Qed.

Lemma nth_error_mapNodes roadmap index nodes i node :
  nth_error nodes i = Some node ->
  nth_error (mapNodes roadmap index nodes) i
  = Some match processNode roadmap node (index + i) with
         | Some processedNode => processedNode
         | None => defaultNode roadmap (index + i)
         end.
Proof.
  revert index i; induction nodes as [|a nodes IH]; intros index i.
  - destruct i; discriminate.
  - destruct i as [|i]; simpl.
    + intros [= ->]. now rewrite Nat.add_0_r.
    + intros H. rewrite (IH (S index) i H).
      now replace (S index + i) with (index + S i) by lia.
Qed.

(** Every child the repair pass keeps is equal to the raw id of a raw
    element: the filter reads the ids of the response, not those of the
    nodes it returns. *)
Lemma processNodes_children_raw (raw : list value) (n : RoadmapNode)
      (childId : value) :
  In n (processNodes raw) -> In childId (children n) ->
  exists element rawId,
    In element raw /\ get element "id" = Some rawId /\
    strictEq rawId childId = true.
Proof.
  unfold processNodes. intros Hn Hc.
  apply In_nth_error in Hn as [i Hi].
  apply nth_error_restamp in Hi as (m & Hm & _ & _ & _ & _ & Hch & _).
  rewrite Hch in Hc. apply nth_error_In in Hm.
  apply (Permutation_in _ (Permutation_sym (sort_perm _))) in Hm.
  apply In_nth_error in Hm as [j Hj].
  assert (j < List.length raw) as Hlt.
  { rewrite <- (length_mapNodes raw 0 raw). apply nth_error_Some. congruence. }
  destruct (nth_error raw j) as [element|] eqn:Ej;
    [|apply nth_error_None in Ej; lia].
  rewrite (nth_error_mapNodes raw 0 raw j element Ej) in Hj.
  cbn [Nat.add] in Hj. injection Hj as <-.
  destruct (processNode raw element j) as [processed|] eqn:Ep;
    [|simpl in Hc; contradiction].
  apply processNode_fields in Ep as (_ & _ & _ & rawChildren & Hf).
  destruct (filterChildren_kept _ _ _ Hf _ Hc) as (_ & H). exact H.
Qed.

(** *** The claims on the repair pass *)

(** C1.  When the response parses and holds a non-empty [nodes] array of
    [N] elements, whatever [sequence] values they carry, the repair pass
    returns a list whose [sequence] values are 1, 2, ..., [N] in this
    order, and the title of every node starts with its [sequence]
    number followed by a point and a space. *)
Theorem repair_sequence_contiguous
        (text : string) (v : value) (raw : list value) :
  Parses text v -> HasNodes v raw ->
  exists nodes,
    repair text = inr nodes /\
    map sequence nodes = map ofNat (seq 1 (List.length raw)) /\
    forall i n, nth_error nodes i = Some n ->
      sequence n = ofNat (i + 1) /\
      exists rest, title n = toString (sequence n) ++ ". " ++ rest.
Proof.
  intros Hp Hn. exists (processNodes raw).
  split; [now apply repair_accepts with (v := v)|]. split.
  - unfold processNodes.
    now rewrite map_sequence_restamp, length_sort, length_mapNodes.
  - intros i n Hnth. unfold processNodes in Hnth.
    apply nth_error_restamp in Hnth as (m & _ & Hseq & Htitle & _).
    split; [exact Hseq|]. rewrite Hseq, Htitle. eauto.
Qed.

(** Three raw elements, two of them with the same [sequence] and none
    with the value 1. *)
Lemma repair_sequence_contiguous_witness :
  exists nodes,
    repair (js "{'nodes':[{'sequence':5,'title':'B'},{'sequence':5,'title':'9. A'},{'sequence':3}]}")
    = inr nodes /\
    map sequence nodes = [1%Q; 2%Q; 3%Q] /\
    map title nodes = ["1. Untitled Node"; "2. B"; "3. A"].
Proof.
  destruct (repair_sequence_contiguous
              (js "{'nodes':[{'sequence':5,'title':'B'},{'sequence':5,'title':'9. A'},{'sequence':3}]}")
              (Obj [("nodes",
                     Arr [Obj [("sequence", Num 5%Q); ("title", Str "B")];
                          Obj [("sequence", Num 5%Q); ("title", Str "9. A")];
                          Obj [("sequence", Num 3%Q)]])])
              [Obj [("sequence", Num 5%Q); ("title", Str "B")];
               Obj [("sequence", Num 5%Q); ("title", Str "9. A")];
               Obj [("sequence", Num 3%Q)]])
    as (nodes & Hrepair & Hseq & _).
  - left. vm_compute. reflexivity.
  - split; [reflexivity|discriminate].
  - exists nodes. split; [exact Hrepair|]. split; [exact Hseq|].
    vm_compute in Hrepair. injection Hrepair as <-. reflexivity.
Defined.

(** C10.  When the response parses and holds a non-empty [nodes] array
    of [N] elements, the repair pass returns [N] nodes: the map gives
    one node for each raw element, in its place, the default node where
    the processing of the element throws, and the sort and the
    renumbering keep the length. *)
Theorem repair_preserves_count
        (text : string) (v : value) (raw : list value) :
  Parses text v -> HasNodes v raw ->
  exists processed nodes,
    repair text = inr nodes /\
    List.length nodes = List.length raw /\
    nodes = restamp 0 (sort processed) /\
    List.length processed = List.length raw /\
    forall i node, nth_error raw i = Some node ->
      nth_error processed i
      = Some match processNode raw node i with
             | Some processedNode => processedNode
             | None => defaultNode raw i
             end.
Proof.
  intros Hp Hn. exists (mapNodes raw 0 raw), (processNodes raw).
  split; [now apply repair_accepts with (v := v)|].
  split; [apply length_processNodes|].
  split; [reflexivity|].
  split; [apply length_mapNodes|].
  intros i node Hnth. now rewrite (nth_error_mapNodes raw 0 raw i node Hnth).
Qed.

(** A response of three elements, the second of them [null]. *)
Lemma repair_preserves_count_witness :
  exists nodes,
    repair (js "Here you go: {'nodes':[{'id':'a'},null,{'id':'c'}]} Thanks!")
    = inr nodes /\
    List.length nodes = 3 /\
    map id nodes = [Str "a"; Str "node_2"; Str "c"].
Proof.
  destruct (repair_preserves_count
              (js "Here you go: {'nodes':[{'id':'a'},null,{'id':'c'}]} Thanks!")
              (Obj [("nodes",
                     Arr [Obj [("id", Str "a")]; Null;
                          Obj [("id", Str "c")]])])
              [Obj [("id", Str "a")]; Null; Obj [("id", Str "c")]])
    as (processed & nodes & Hrepair & Hlen & _).
  - right. vm_compute. split; [reflexivity|].
    eexists. split; reflexivity.
  - split; [reflexivity|discriminate].
  - exists nodes. split; [exact Hrepair|]. split; [exact Hlen|].
    vm_compute in Hrepair. injection Hrepair as <-. reflexivity.
Defined.

(** C6.  The repair pass throws in two situations and no other,
    whatever [JSON.parse] returns and throws.  When [JSON.parse] throws on
    the text and on its brace span, or the text has no brace span, it
    throws a ParseError, made of the message of the failed parse of the
    whole text.  When the value parsed from the text, or else from its
    brace span, does not hold a non-empty array under [nodes], it throws a
    FormatError.  In every other case it returns the node list made of
    the elements of that array, which is not empty; it never returns the
    empty list. *)
Theorem repair_fails_exactly
  (JSON_parse : string -> string + value) (text : string) :
  (forall message, UnparsableWith JSON_parse text message ->
     ParseError (Error (parseFailed ++ message)) /\
     repairWith JSON_parse text = inl (Error (parseFailed ++ message))) /\
  (forall v, ParsesWith JSON_parse text v -> (forall raw, ~ HasNodes v raw) ->
     exists e, repairWith JSON_parse text = inl e /\ FormatError e) /\
  (forall v raw, ParsesWith JSON_parse text v -> HasNodes v raw ->
     repairWith JSON_parse text = inr (processNodes raw) /\
     processNodes raw <> []) /\
  (forall e, repairWith JSON_parse text = inl e ->
     (ParseError e /\
      exists message, UnparsableWith JSON_parse text message) \/
     (FormatError e /\
      exists v, ParsesWith JSON_parse text v /\
                forall raw, ~ HasNodes v raw)) /\
  repairWith JSON_parse text <> inr [].
Proof.
  assert (Hparse : forall message,
             UnparsableWith JSON_parse text message ->
             repairWith JSON_parse text
             = inl (Error (parseFailed ++ message))).
  { intros message Hu. unfold repairWith.
    now rewrite (parseResponseWith_fail _ _ _ Hu). }
  assert (Hformat : forall v,
             ParsesWith JSON_parse text v -> (forall raw, ~ HasNodes v raw) ->
             exists e, repairWith JSON_parse text = inl e /\ FormatError e).
  { intros v Hp Hnone. unfold repairWith.
    rewrite (parseResponseWith_ok _ _ _ Hp).
    destruct (nodesOf_fail v Hnone) as (e & -> & He). eauto. }
  assert (Hfull : forall raw : list value,
             raw <> [] -> processNodes raw <> []).
  { intros raw Hne H. apply (f_equal (@List.length _)) in H.
    rewrite length_processNodes in H. destruct raw; simpl in H; congruence. }
  split; [|split; [exact Hformat|split; [|split]]].
  - intros message Hu. split; [now exists message|now apply Hparse].
  - intros v raw Hp Hn. split.
    + now apply repairWith_accepts with (v := v).
    + apply Hfull, Hn.
  - intros e He.
    destruct (parsesWith_or_not JSON_parse text) as [[v Hv]|[message Hu]].
    + destruct (has_nodes_or_not v) as [[raw Hraw]|Hnone].
      * rewrite (repairWith_accepts _ _ _ _ Hv Hraw) in He. discriminate.
      * right. destruct (Hformat v Hv Hnone) as (e' & He' & Hf).
        rewrite He in He'. injection He' as <-. eauto.
    + left. rewrite (Hparse message Hu) in He. injection He as <-.
      split; [now exists message|now exists message].
  - intros H.
    destruct (parsesWith_or_not JSON_parse text) as [[v Hv]|[message Hu]].
    + destruct (has_nodes_or_not v) as [[raw Hraw]|Hnone].
      * rewrite (repairWith_accepts _ _ _ _ Hv Hraw) in H.
        injection H as H. exact (Hfull raw (proj2 Hraw) H).
      * destruct (Hformat v Hv Hnone) as (e & He & _). congruence.
    + rewrite (Hparse message Hu) in H. discriminate.
Qed.

(** Three responses wrapped in prose, read with [jsonParse]: one whose
    brace span is no JSON, one whose brace span holds an empty array, and
    one whose brace span holds a node. *)
Lemma repair_fails_exactly_witness :
  (exists e, repair "Sorry, {no JSON} here." = inl e /\ ParseError e) /\
  (exists e, repair (js "Here you go: {'nodes':[]} Thanks!") = inl e /\
             FormatError e) /\
  (exists nodes,
      repair (js "Here you go: {'nodes':[{'id':'a'}]} Thanks!") = inr nodes /\
      nodes <> []).
Proof.
  split; [|split].
  - exists (Error (parseFailed ++ syntaxErrorMessage)).
    assert (Hu : UnparsableWith jsonParse "Sorry, {no JSON} here."
                   syntaxErrorMessage).
    { split; [reflexivity|].
      intros span Hs. apply matchBraces_span in Hs.
      injection Hs as <-. now exists syntaxErrorMessage. }
    destruct (proj1 (repair_fails_exactly jsonParse "Sorry, {no JSON} here.")
                syntaxErrorMessage Hu) as [He Hr].
    split; [exact Hr|exact He].
  - apply (proj1 (proj2 (repair_fails_exactly jsonParse
                           (js "Here you go: {'nodes':[]} Thanks!")))
             (Obj [("nodes", Arr [])])).
    + right. exists syntaxErrorMessage, (js "{'nodes':[]}").
      split; [reflexivity|]. split; [|reflexivity].
      exists "Here you go: ", (js "'nodes':[]"), " Thanks!".
      repeat split.
    + intros raw [H Hne]. injection H as <-. now apply Hne.
  - exists (processNodes [Obj [("id", Str "a")]]).
    apply (proj1 (proj2 (proj2 (repair_fails_exactly jsonParse
                           (js "Here you go: {'nodes':[{'id':'a'}]} Thanks!"))))
             (Obj [("nodes", Arr [Obj [("id", Str "a")]])])).
    + right. exists syntaxErrorMessage, (js "{'nodes':[{'id':'a'}]}").
      split; [reflexivity|]. split; [|reflexivity].
      exists "Here you go: ", (js "'nodes':[{'id':'a'}]"), " Thanks!".
      repeat split.
    + split; [reflexivity|discriminate].
Defined.

(** C8.  Every node the repair pass returns has a non-empty description,
    [completed = false] and [timeConsumed = 0], whatever the raw
    elements hold; and the response with the single element
    [{id: node_1}] gives one node, of sequence 1, with a title that
    starts with 1 and a point, a description that is not empty and no
    children. *)
Theorem repair_fresh_nodes :
  (forall raw : list value, Forall Fresh (processNodes raw)) /\
  (forall text nodes, repair text = inr nodes -> Forall Fresh nodes) /\
  (exists n,
      repair (js "{'nodes':[{'id':'node_1'}]}") = inr [n] /\
      sequence n = 1%Q /\
      startsWith (title n) "1." = true /\
      description n <> [] /\
      children n = []).
Proof.
  split; [exact processNodes_fresh|]. split.
  - intros text nodes H.
    apply repair_inr in H as (v & raw & _ & _ & ->).
    apply processNodes_fresh.
  - eexists. split; [vm_compute; reflexivity|].
    repeat split. discriminate.
Qed.

(** An element that claims to be done. *)
Lemma repair_fresh_nodes_witness :
  exists n,
    repair (js "{'nodes':[{'completed':true,'timeConsumed':7,'description':[]}]}")
    = inr [n] /\ Fresh n.
Proof.
  eexists. split; [vm_compute; reflexivity|].
  eapply Forall_inv.
  apply (proj1 (proj2 repair_fresh_nodes)
           (js "{'nodes':[{'completed':true,'timeConsumed':7,'description':[]}]}")).
  vm_compute. reflexivity.
Defined.

(** C2, at a response the code leaves a dangling child for.  The second
    element has a number for title, so its processing throws and the
    default node takes its place, with the id [node_2]; the first
    element keeps the child [b], which the filter found among the raw
    ids, and no returned node has that id. *)
Theorem repair_keeps_dangling_child :
  exists parent stub,
    repair (js "{'nodes':[{'id':'a','title':'1. Intro','children':['b']},{'id':'b','title':2}]}")
    = inr [parent; stub] /\
    id parent = Str "a" /\ id stub = Str "node_2" /\
    children parent = [Str "b"] /\
    forall n, In n [parent; stub] -> strictEq (id n) (Str "b") = false.
Proof.
  do 2 eexists. split; [vm_compute; reflexivity|].
  repeat split. intros n [<-|[<-|[]]]; reflexivity.
Qed.

(** The same with a raw id that is the empty string: the node gets the
    id [node_1] and keeps the child. *)
Example repair_keeps_child_of_empty_id :
  exists n,
    repair (js "{'nodes':[{'id':'','children':['']}]}") = inr [n] /\
    id n = Str "node_1" /\ children n = [Str ""].
Proof. eexists. split; [vm_compute; reflexivity|]. split; reflexivity. Qed.

End Repair.

(* ================================================================= *)
(** ** generateRoadmap *)

Module Generate.
Import Ai Spec.

Lemma validatePrompt_error (prompt : string) (e : JsError) :
  validatePrompt prompt = inl e -> InvalidPrompt e.
Proof.
  unfold validatePrompt, InvalidPrompt.
  repeat match goal with
         | |- context [if ?b then _ else _] => destruct b
         | |- context [match ?o with Some _ => _ | None => _ end] =>
             destruct o
         end;
    intros [= <-]; simpl; auto.
Qed.

(** C7.  When the validator throws on the prompt, generateRoadmap throws
    the validator's error and sends no request to the service. *)
Theorem generateRoadmap_invalid_prompt
        (env : Env) (prompt : string) (level : Level)
        (roadmapType : RoadmapType) (e : JsError) :
  validatePrompt prompt = inl e ->
  generateRoadmap env prompt level roadmapType = ([], inl e).
Proof.
  intros Hv. destruct (validatePrompt_error _ _ Hv) as [Hresp Hmsg].
  unfold generateRoadmap, tryBlock. rewrite Hv.
  unfold catchBlock, statusIs. rewrite Hresp.
  destruct e as [msg resp]; simpl in *. subst resp.
  destruct Hmsg as [-> | [-> | ->]]; reflexivity.
Qed.

(** A question instead of a topic, and a service that would answer. *)
Lemma generateRoadmap_invalid_prompt_witness :
  generateRoadmap
    {| GROQ_API_KEY := Some "gsk_test";
       NODE_ENV := Some "production";
       axios_post := fun _ => Fulfilled Null;
       Math_random := fun _ => 0%Q |}
    "What is the weather" beginner topicWise
  = ([], inl (Error notATopic)).
Proof.
  apply generateRoadmap_invalid_prompt. reflexivity.
Defined.

(** C9.  When a request was sent and the service answered it with the
    status 429, generateRoadmap throws the message of the rate limit,
    which is neither the error's own message nor the default one; with
    the status 401 it throws the message of the failed
    authentication. *)
Theorem generateRoadmap_status_message
        (env : Env) (prompt : string) (level : Level)
        (roadmapType : RoadmapType)
        (request : Request) (error : JsError) (answer : HttpResponse) :
  fst (generateRoadmap env prompt level roadmapType) = [request] ->
  axios_post env request = Rejected error ->
  response error = Some answer ->
  (status answer = 429 ->
   snd (generateRoadmap env prompt level roadmapType)
   = inl (Error rateLimited)) /\
  (status answer = 401 ->
   snd (generateRoadmap env prompt level roadmapType)
   = inl (Error unauthorized)) /\
  rateLimited <> defaultMessage.
Proof.
  unfold generateRoadmap, tryBlock.
  destruct (validatePrompt prompt); [discriminate|].
  destruct (GROQ_API_KEY env) as [[|c key]|]; try discriminate.
  cbn [fst snd]. intros [= <-] -> Hresp.
  unfold catchBlock, statusIs. rewrite Hresp.
  repeat split; try discriminate; intros ->; reflexivity.
Qed.

Lemma generateRoadmap_status_message_witness :
  snd (generateRoadmap
         {| GROQ_API_KEY := Some "gsk_test";
            NODE_ENV := Some "production";
            axios_post := fun _ =>
              Rejected {| message := "Request failed with status code 429";
                          response := Some {| status := 429;
                                              data := Null |} |};
            Math_random := fun _ => 0%Q |}
         "Python" beginner weekByWeek)
  = inl (Error rateLimited).
Proof.
  eapply generateRoadmap_status_message; reflexivity.
Defined.

End Generate.

(* ================================================================= *)
(** ** More on the prompt validator *)

Module ValidatorMore.
Import Ai Spec Terms StringFacts.

Lemma lowerChar_idem (c : ascii) : lowerChar (lowerChar c) = lowerChar c.
Proof.
  destruct c as [[] [] [] [] [] [] [] []]; vm_compute; reflexivity.
Qed.

Lemma lowerChar_white (c : ascii) :
  isWhiteSpace (lowerChar c) = isWhiteSpace c.
Proof.
  destruct c as [[] [] [] [] [] [] [] []]; vm_compute; reflexivity.
Qed.

Lemma toLowerCase_idem (s : string) :
  toLowerCase (toLowerCase s) = toLowerCase s.
Proof.
  induction s as [|c s IH]; simpl; [reflexivity|].
  now rewrite lowerChar_idem, IH.
Qed.

Lemma toLowerCase_app (a b : string) :
  toLowerCase (a ++ b) = toLowerCase a ++ toLowerCase b.
Proof.
  induction a as [|c a IH]; simpl; [reflexivity | now rewrite IH].
Qed.

Lemma toLowerCase_white (s : string) :
  allWhiteSpace (toLowerCase s) = allWhiteSpace s.
Proof.
  induction s as [|c s IH]; simpl; [reflexivity|].
  now rewrite lowerChar_white, IH.
Qed.

Lemma trimStart_white (w s : string) :
  allWhiteSpace w = true -> trimStart (w ++ s) = trimStart s.
Proof.
  induction w as [|c w IH]; simpl; [reflexivity|].
  intros H. apply andb_prop in H as [Hc Hw]. rewrite Hc. now apply IH.
Qed.

Lemma trimStart_all_white (w : string) :
  allWhiteSpace w = true -> trimStart w = "".
Proof.
  induction w as [|c w IH]; simpl; [reflexivity|].
  intros H. apply andb_prop in H as [Hc Hw]. rewrite Hc. now apply IH.
Qed.

Lemma trimEnd_all_white (w : string) :
  allWhiteSpace w = true -> trimEnd w = "".
Proof.
  induction w as [|c w IH]; simpl; [reflexivity|].
  intros H. apply andb_prop in H as [Hc Hw].
  now rewrite (IH Hw), Hc.
Qed.

Lemma trimEnd_white (s w : string) :
  allWhiteSpace w = true -> trimEnd (s ++ w) = trimEnd s.
Proof.
  intros Hw. induction s as [|c s IH]; simpl.
  - now apply trimEnd_all_white.
  - now rewrite IH.
Qed.

Lemma trim_white (before s after : string) :
  allWhiteSpace before = true -> allWhiteSpace after = true ->
  trim (before ++ s ++ after) = trim s.
Proof.
  intros Hb Ha. unfold trim. rewrite (trimStart_white _ _ Hb).
  induction s as [|c s IH]; simpl.
  - now rewrite (trimStart_all_white _ Ha).
  - destruct (isWhiteSpace c); [exact IH|].
    change (String c (s ++ after)) with (String c s ++ after).
    now apply trimEnd_white.
Qed.

(** X1.  Which error the validator throws: the one of the short prompt
    when the lower-cased, trimmed prompt has fewer than 3 characters,
    even if it holds a keyword; the one of the long prompt when it has
    more than 200; and the one of the question only when the length is
    in range and a keyword occurs. *)
Theorem validatePrompt_message (prompt : string) :
  let t := trim (toLowerCase prompt) in
  (String.length t < 3 -> validatePrompt prompt = inl (Error tooShort)) /\
  (200 < String.length t -> validatePrompt prompt = inl (Error tooLong)) /\
  (3 <= String.length t <= 200 ->
   (exists k, In k invalidKeywords /\ Substring k t) ->
   validatePrompt prompt = inl (Error notATopic)).
Proof.
  intros t. unfold validatePrompt. fold t.
  destruct (Nat.ltb_spec (String.length t) 3) as [Hs|Hs].
  { repeat split; intros; try reflexivity; lia. }
  destruct (Nat.ltb_spec 200 (String.length t)) as [Hl|Hl].
  { repeat split; intros; try reflexivity; lia. }
  repeat split; try (intros; lia).
  intros _ (k & Hin & Hsub).
  destruct (find (fun keyword => includes t keyword) invalidKeywords)
    as [k'|] eqn:Hfind.
  - apply find_some in Hfind as [Hin' _].
    now rewrite (Validator.keywords_nonEmpty k' Hin').
  - apply includes_iff in Hsub.
    now rewrite (find_none _ _ Hfind k Hin) in Hsub.
Qed.

Lemma validatePrompt_message_witness :
  validatePrompt "go" = inl (Error tooShort) /\
  validatePrompt "Fix my ERROR" = inl (Error notATopic).
Proof.
  split.
  - apply (validatePrompt_message "go"). vm_compute. lia.
  - apply (validatePrompt_message "Fix my ERROR").
    + vm_compute. split; apply Nat.leb_le; reflexivity.
    + exists "error". split; [vm_compute; tauto|].
      apply includes_iff. reflexivity.
Defined.

(** X2.  The verdict of the validator does not depend on the case of the
    letters nor on white space around the prompt. *)
Theorem validatePrompt_case_and_padding :
  (forall prompt, validatePrompt (toLowerCase prompt) = validatePrompt prompt)
  /\
  (forall before prompt after,
      allWhiteSpace before = true -> allWhiteSpace after = true ->
      validatePrompt (before ++ prompt ++ after) = validatePrompt prompt).
Proof.
  split.
  - intros prompt. unfold validatePrompt. now rewrite toLowerCase_idem.
  - intros before prompt after Hb Ha. unfold validatePrompt.
    rewrite !toLowerCase_app, trim_white; [reflexivity| |];
      now rewrite toLowerCase_white.
Qed.

Lemma validatePrompt_case_and_padding_witness :
  validatePrompt "  Machine Learning  " = validatePrompt "Machine Learning".
Proof.
  apply (proj2 validatePrompt_case_and_padding "  " "Machine Learning" "  ");
    reflexivity.
Defined.

End ValidatorMore.

(* ================================================================= *)
(** ** More on the layout *)

Module LayoutMore.
Import Ai Layout.
#[local] Open Scope Q_scope.

(** The quantities of the layout as integers. *)
Lemma level_width (index : nat) :
  let width := (2 ^ Z.of_nat (floorLog2 (index + 1)))%Z in
  (width <= Z.of_nat index + 1 < 2 * width)%Z.
Proof.
  intros width. pose proof (level_bounds index) as H. cbv zeta in H.
  unfold width. rewrite <- Nat2Z.inj_pow with (n := 2%nat).
  rewrite Nat.add_1_r with (n := floorLog2 (index + 1)) in H.
  rewrite Nat.pow_succ_r' in H. lia.
Qed.

Lemma y_closed_form (index total : nat) :
  y (calculateNodePosition index total)
  == inject_Z (Z.of_nat (floorLog2 (index + 1)) * 100 + 50).
Proof.
  unfold calculateNodePosition. cbn [y].
  unfold ofNat, VERTICAL_SPACING, TOP_MARGIN.
  rewrite inject_Z_plus, inject_Z_mult. reflexivity.
Qed.

Lemma x_closed_form (index total : nat) :
  (index < total)%nat ->
  let level := floorLog2 (index + 1) in
  let width := (2 ^ Z.of_nat level)%Z in
  let positionInLevel := (Z.of_nat index - (width - 1))%Z in
  let nodesInLevel := Z.min width (Z.of_nat total - (width - 1)) in
  let spacing := inject_Z (140 * width) / inject_Z (nodesInLevel + 1) in
  let bias :=
    if (level =? 0)%nat then 0
    else if (nodesInLevel <=? 2 * positionInLevel)%Z
         then 50 * (3 # 2) ^ Z.of_nat level
         else - (50 * (3 # 2) ^ Z.of_nat level) in
  (1 <= nodesInLevel <= width)%Z /\
  x (calculateNodePosition index total)
  == inject_Z (positionInLevel + 1) * spacing - inject_Z (70 * width) + bias.
Proof.
  intros Hlt level width positionInLevel nodesInLevel spacing bias.
  pose proof (level_width index) as Hw. cbv zeta in Hw.
  fold level in Hw. fold width in Hw.
  assert (Hn : (1 <= nodesInLevel <= width)%Z) by (unfold nodesInLevel; lia).
  split; [exact Hn|].
  assert (Hp : pow 2 level == inject_Z width) by apply pow2_inject.
  assert (Hpos : ofNat index - (pow 2 level - 1)
                 == inject_Z positionInLevel).
  { rewrite Hp. unfold positionInLevel, ofNat, Z.sub.
    rewrite !inject_Z_plus, !inject_Z_opp, !inject_Z_plus.
    change (inject_Z (- (1))) with (- (1)). ring. }
  assert (Hnodes : min (pow 2 level) (ofNat total - (pow 2 level - 1))
                   == inject_Z nodesInLevel).
  { apply min_inject; [exact Hp|].
    rewrite Hp. unfold ofNat, Z.sub.
    rewrite !inject_Z_plus, !inject_Z_opp, !inject_Z_plus.
    change (inject_Z (- (1))) with (- (1)). ring. }
  assert (Hden : ~ inject_Z (nodesInLevel + 1) == 0).
  { change 0 with (inject_Z 0). rewrite inject_Z_injective. lia. }
  unfold calculateNodePosition. fold level. cbn [x].
  rewrite (half_le_inject _ _ _ _ Hnodes Hpos).
  assert (Hx0 :
    (ofNat index - (pow 2 level - 1) + 1)
    * (MIN_NODE_SPACING * pow 2 level
       / (min (pow 2 level) (ofNat total - (pow 2 level - 1)) + 1))
    - MIN_NODE_SPACING * pow 2 level / 2
    == inject_Z (positionInLevel + 1) * spacing - inject_Z (70 * width)).
  { rewrite Hpos, Hnodes, Hp. unfold spacing, MIN_NODE_SPACING.
    rewrite !inject_Z_plus, !inject_Z_mult in *.
    change (inject_Z 1) with 1 in *.
    change (inject_Z 140) with 140. change (inject_Z 70) with 70.
    field. exact Hden. }
  unfold bias. destruct level as [|l] eqn:El.
  - cbn [Nat.ltb Nat.leb Nat.eqb]. rewrite Hx0. ring.
  - cbn [Nat.ltb Nat.leb Nat.eqb].
    destruct (nodesInLevel <=? 2 * positionInLevel)%Z;
      rewrite Hx0; unfold pow, LEVEL_PADDING; ring.
Qed.

(** X3.  In a roadmap of one node or more, the first node is centred:
    its position is [x = 0], [y = 50]. *)
Theorem root_is_centred (total : nat) :
  (1 <= total)%nat ->
  x (calculateNodePosition 0 total) == 0 /\
  y (calculateNodePosition 0 total) == 50.
Proof.
  intros Ht. split; [|reflexivity].
  destruct (x_closed_form 0 total) as [_ Hx]; [lia|].
  rewrite Hx. cbn.
  replace (Z.min 1 (Z.of_nat total - 0)) with 1%Z by lia.
  reflexivity.
Qed.

Lemma root_is_centred_witness :
  x (calculateNodePosition 0 12) == 0 /\ y (calculateNodePosition 0 12) == 50.
Proof. apply root_is_centred. lia. Defined.

(** X4.  Two nodes of one roadmap never overlap: in one row (the same
    depth) the node of the greater index lies at least 70 to the right,
    and a node of a deeper row lies at least 100 lower. *)
Theorem nodes_keep_apart (i j total : nat) :
  (i < j)%nat -> (j < total)%nat ->
  (floorLog2 (i + 1) = floorLog2 (j + 1) ->
   y (calculateNodePosition i total) == y (calculateNodePosition j total) /\
   x (calculateNodePosition i total) + 70
   <= x (calculateNodePosition j total)) /\
  (floorLog2 (i + 1) <> floorLog2 (j + 1) ->
   y (calculateNodePosition i total) + 100
   <= y (calculateNodePosition j total)).
Proof.
  intros Hij Hj. split.
  - intros Hlevel. split.
    + now rewrite !y_closed_form, Hlevel.
    + destruct (x_closed_form i total) as [Hn Hxi]; [lia|].
      destruct (x_closed_form j total) as [_ Hxj]; [lia|].
      cbv zeta in Hn, Hxi, Hxj. rewrite Hlevel in Hn, Hxi.
      rewrite Hxi, Hxj. clear Hxi Hxj.
      set (level := floorLog2 (j + 1)) in *.
      set (width := (2 ^ Z.of_nat level)%Z) in *.
      set (nodes := Z.min width (Z.of_nat total - (width - 1))) in *.
      set (spacing := inject_Z (140 * width) / inject_Z (nodes + 1)).
      set (pad := 50 * (3 # 2) ^ Z.of_nat level).
      assert (Hpad : 0 <= pad).
      { unfold pad. apply Qmult_le_0_compat; [discriminate|].
        apply Qpower_0_le. discriminate. }
      assert (Hspacing : 70 <= spacing).
      { unfold spacing. apply Qle_shift_div_l.
        - change 0 with (inject_Z 0). rewrite <- Zlt_Qlt. lia.
        - change 70 with (inject_Z 70).
          rewrite <- inject_Z_mult, <- Zle_Qle. lia. }
      assert (Hstep : inject_Z (Z.of_nat i - (width - 1) + 1) + 1
                      <= inject_Z (Z.of_nat j - (width - 1) + 1)).
      { change 1 with (inject_Z 1).
        rewrite <- inject_Z_plus, <- Zle_Qle. lia. }
      set (pi := inject_Z (Z.of_nat i - (width - 1) + 1)) in *.
      set (pj := inject_Z (Z.of_nat j - (width - 1) + 1)) in *.
      assert (Hprod : pi * spacing + spacing <= pj * spacing).
      { setoid_replace (pi * spacing + spacing) with ((pi + 1) * spacing)
          by ring.
        apply Qmult_le_compat_r; [exact Hstep|].
        apply Qle_trans with (y := 70); [discriminate|exact Hspacing]. }
      destruct (level =? 0)%nat.
      * lra.
      * destruct (nodes <=? 2 * (Z.of_nat i - (width - 1)))%Z eqn:Ei;
          destruct (nodes <=? 2 * (Z.of_nat j - (width - 1)))%Z eqn:Ej;
          try lra.
        apply Z.leb_le in Ei. apply Z.leb_gt in Ej. lia.
  - intros Hlevel. rewrite !y_closed_form.
    change 100 with (inject_Z 100).
    rewrite <- inject_Z_plus, <- Zle_Qle.
    assert (floorLog2 (i + 1) <= floorLog2 (j + 1))%nat
      by (apply Nat.log2_le_mono; lia).
    lia.
Qed.

Lemma nodes_keep_apart_witness :
  x (calculateNodePosition 3 7) + 70 <= x (calculateNodePosition 4 7) /\
  y (calculateNodePosition 2 7) + 100 <= y (calculateNodePosition 3 7).
Proof.
  split.
  - apply (nodes_keep_apart 3 4 7); [lia | lia | reflexivity].
  - apply (nodes_keep_apart 2 3 7); [lia | lia | discriminate].
Defined.

End LayoutMore.

(* ================================================================= *)
(** ** More on the repair pass *)

Module RepairMore.
Import Ai Spec Terms Repair.

(** *** The sort *)

Lemma bySequence_le (a b : RoadmapNode) :
  Qle_bool (bySequence a b) 0%Q = true <-> bySequenceLe a b.
Proof.
  unfold bySequence, bySequenceLe. rewrite Qle_bool_iff. split; intros H; lra.
Qed.

Lemma bySequenceLe_trans (a b c : RoadmapNode) :
  bySequenceLe a b -> bySequenceLe b c -> bySequenceLe a c.
Proof. unfold bySequenceLe. apply Qle_trans. Qed.

Lemma insertSorted_sorted (a : RoadmapNode) (sorted : list RoadmapNode) :
  StronglySorted bySequenceLe sorted ->
  StronglySorted bySequenceLe (insertSorted a sorted).
Proof.
  induction 1 as [|b rest Hrest IH Hb]; simpl.
  - repeat constructor.
  - destruct (Qle_bool (bySequence a b) 0%Q) eqn:E.
    + apply bySequence_le in E. constructor.
      * now constructor.
      * constructor; [exact E|].
        eapply Forall_impl; [|exact Hb].
        intros c. now apply bySequenceLe_trans.
    + constructor; [exact IH|].
      eapply Permutation_Forall; [apply insertSorted_perm|].
      constructor; [|exact Hb].
      assert (~ bySequenceLe a b) as N
          by (rewrite <- bySequence_le; congruence).
      unfold bySequenceLe in *. lra.
Qed.

Lemma sort_sorted (nodes : list RoadmapNode) :
  StronglySorted bySequenceLe (sort nodes).
Proof.
  induction nodes as [|a nodes IH]; simpl; [constructor|].
  now apply insertSorted_sorted.
Qed.

Lemma sort_of_sorted (nodes : list RoadmapNode) :
  StronglySorted bySequenceLe nodes -> sort nodes = nodes.
Proof.
  induction 1 as [|a rest Hrest IH Ha]; simpl; [reflexivity|].
  rewrite IH. destruct rest as [|b rest']; [reflexivity|]. simpl.
  apply Forall_inv in Ha. apply bySequence_le in Ha. now rewrite Ha.
Qed.

(** X5.  The nodes the repair pass returns are the processed nodes in
    ascending order of the [sequence] each one had, renumbered; and when
    the processed nodes are in that order already, it is their order. *)
Theorem processNodes_in_sequence_order (raw : list value) :
  exists ordered,
    processNodes raw = restamp 0 ordered /\
    Permutation (mapNodes raw 0 raw) ordered /\
    StronglySorted bySequenceLe ordered /\
    (StronglySorted bySequenceLe (mapNodes raw 0 raw) ->
     ordered = mapNodes raw 0 raw).
Proof.
  exists (sort (mapNodes raw 0 raw)).
  split; [reflexivity|]. split; [apply sort_perm|].
  split; [apply sort_sorted | apply sort_of_sorted].
Qed.

(** *** One element, field by field *)

Lemma processNode_inv roadmap node index n :
  processNode roadmap node index = Some n ->
  sequence n = match get node "sequence" with
               | Some (Num q) => q
               | _ => ofNat (index + 1)
               end /\
  position n = calculateNodePosition index (List.length roadmap) /\
  filterChildren roadmap match get node "children" with
                         | Some (Arr l) => l
                         | _ => []
                         end = Some (children n).
Proof.
  unfold processNode. intros H.
  repeat match type of H with
         | match ?d with _ => _ end = _ => destruct d eqn:?; try discriminate
         end;
    injection H as <-; cbn [sequence position children]; auto.
Qed.

Lemma mapNodes_position roadmap index nodes :
  map position (mapNodes roadmap index nodes)
  = map (fun i => calculateNodePosition i (List.length roadmap))
        (seq index (List.length nodes)).
Proof.
  revert index; induction nodes as [|node nodes IH]; intros index; simpl;
    [reflexivity|].
  rewrite IH. f_equal.
  destruct (processNode roadmap node index) as [n|] eqn:E; [|reflexivity].
  now apply processNode_inv in E.
Qed.

Lemma restamp_position index nodes :
  map position (restamp index nodes) = map position nodes.
Proof.
  revert index; induction nodes as [|node nodes IH]; intros index; simpl;
    [reflexivity | now rewrite IH].
Qed.

Lemma filterChildren_filter roadmap children :
  (forall element, In element roadmap -> get element "id" <> None) ->
  filterChildren roadmap children = Some (filter (hasRawId roadmap) children).
Proof.
  intros Hid.
  assert (Hsome : forall childId,
             someHasId roadmap childId = Some (hasRawId roadmap childId)).
  { intros childId. unfold hasRawId.
    induction roadmap as [|n rest IH]; simpl; [reflexivity|].
    destruct (get n "id") as [rawId|] eqn:E.
    - destruct (strictEq rawId childId); [reflexivity|].
      apply IH. intros element Hin. apply Hid. now right.
    - elim (Hid n); [now left | exact E]. }
  induction children as [|c rest IH]; simpl; [reflexivity|].
  rewrite Hsome, IH. now destruct (hasRawId roadmap c).
Qed.

Lemma someHasId_true roadmap childId :
  someHasId roadmap childId = Some true -> hasRawId roadmap childId = true.
Proof.
  unfold hasRawId. induction roadmap as [|n rest IH]; simpl; [discriminate|].
  destruct (get n "id") as [rawId|]; [|discriminate].
  destruct (strictEq rawId childId); [reflexivity|]. exact IH.
Qed.

Lemma filterChildren_hasRawId roadmap children kept :
  filterChildren roadmap children = Some kept ->
  Forall (fun childId => hasRawId roadmap childId = true) kept.
Proof.
  revert kept; induction children as [|c rest IH]; simpl; intros kept.
  - intros [= <-]. constructor.
  - destruct (someHasId roadmap c) as [keep|] eqn:Ec; [|discriminate].
    destruct (filterChildren roadmap rest) as [kept'|]; [|discriminate].
    intros [= <-]. destruct keep; [constructor|]; auto.
    now apply someHasId_true.
Qed.

Lemma mapNodes_children roadmap index nodes :
  Forall (fun n => Forall (fun c => hasRawId roadmap c = true) (children n))
         (mapNodes roadmap index nodes).
Proof.
  revert index; induction nodes as [|node nodes IH]; intros index; simpl;
    constructor; [|apply IH].
  destruct (processNode roadmap node index) as [n|] eqn:E.
  - apply processNode_inv in E as (_ & _ & E).
    now apply filterChildren_hasRawId in E.
  - constructor.
Qed.

Lemma restamp_children roadmap index nodes :
  Forall (fun n => Forall (fun c => hasRawId roadmap c = true) (children n))
         nodes ->
  Forall (fun n => Forall (fun c => hasRawId roadmap c = true) (children n))
         (restamp index nodes).
Proof.
  intros H; revert index; induction H as [|n nodes Hn _ IH];
    intros index; simpl; constructor; [exact Hn | apply IH].
Qed.

(** X6.  Every child the repair pass leaves in a node is the [id] of a
    raw element of the response: an entry of [children] that no raw
    element has for [id] is gone from the result. *)
Theorem repair_children_are_raw_ids
        (text : string) (nodes : list RoadmapNode)
        (n : RoadmapNode) (childId : value) :
  repair text = inr nodes -> In n nodes -> In childId (children n) ->
  exists v raw,
    Parses text v /\ HasNodes v raw /\ hasRawId raw childId = true.
Proof.
  intros Hrepair Hn Hc.
  apply repair_inr in Hrepair as (v & raw & Hp & Hraw & ->).
  exists v, raw. split; [exact Hp|]. split; [exact Hraw|].
  assert (H : Forall (fun n => Forall (fun c => hasRawId raw c = true)
                                     (children n)) (processNodes raw)).
  { unfold processNodes. apply restamp_children.
    eapply Permutation_Forall; [apply sort_perm | apply mapNodes_children]. }
  rewrite Forall_forall in H. specialize (H n Hn).
  rewrite Forall_forall in H. now apply H.
Qed.

Lemma repair_children_are_raw_ids_witness :
  exists v raw,
    Parses (js "{'nodes':[{'id':'a','children':['b','zz']},{'id':'b'}]}") v /\
    HasNodes v raw /\ hasRawId raw (Str "b") = true.
Proof.
  eapply (repair_children_are_raw_ids
            (js "{'nodes':[{'id':'a','children':['b','zz']},{'id':'b'}]}")).
  - vm_compute. reflexivity.
  - left. reflexivity.
  - left. reflexivity.
Defined.

(** X7.  The layout slots are dealt by the place of an element in the
    response, before the sort: the positions of the nodes returned are,
    in some order, the positions of the indices 0 to N-1 in a roadmap
    of N nodes. *)
Theorem processNodes_positions (raw : list value) :
  Permutation
    (map position (processNodes raw))
    (map (fun i => calculateNodePosition i (List.length raw))
         (seq 0 (List.length raw))).
Proof.
  unfold processNodes. rewrite restamp_position.
  rewrite <- (mapNodes_position raw 0 raw).
  apply Permutation_map, Permutation_sym, sort_perm.
Qed.

(** *** A response without sequence numbers *)

Lemma mapNodes_default_sequence roadmap index nodes :
  (forall element q, In element nodes ->
                     get element "sequence" <> Some (Num q)) ->
  map sequence (mapNodes roadmap index nodes)
  = map ofNat (seq (index + 1) (List.length nodes)).
Proof.
  revert index; induction nodes as [|node nodes IH]; intros index Hseq;
    simpl; [reflexivity|].
  rewrite IH by (intros element q Hin; apply Hseq; now right).
  replace (S index + 1) with (S (index + 1)) by lia. f_equal.
  destruct (processNode roadmap node index) as [n|] eqn:E; [|reflexivity].
  apply processNode_inv in E as (E & _). rewrite E.
  destruct (get node "sequence") as [[| | |q| | |]|] eqn:Eq; try reflexivity.
  elim (Hseq node q); [now left | exact Eq].
Qed.

Lemma ofNat_le (a b : nat) : a <= b -> (ofNat a <= ofNat b)%Q.
Proof. intros H. unfold ofNat. rewrite <- Zle_Qle. lia. Qed.

Lemma numbered_from (nodes : list RoadmapNode) (a : nat) :
  map sequence nodes = map ofNat (seq a (List.length nodes)) ->
  Forall (fun n => (ofNat a <= sequence n)%Q) nodes /\
  StronglySorted bySequenceLe nodes.
Proof.
  revert a; induction nodes as [|n nodes IH]; intros a; simpl.
  - intros _. split; constructor.
  - intros [= Hn Hrest]. destruct (IH (S a) Hrest) as [Hfrom Hsorted].
    split.
    + constructor; [rewrite Hn; apply Qle_refl|].
      eapply Forall_impl; [|exact Hfrom]. intros m Hm.
      eapply Qle_trans; [|exact Hm]. apply ofNat_le. lia.
    + constructor; [exact Hsorted|].
      eapply Forall_impl; [|exact Hfrom]. intros m Hm.
      unfold bySequenceLe. rewrite Hn.
      eapply Qle_trans; [|exact Hm]. apply ofNat_le. lia.
Qed.

(** X8.  When no raw element carries a number for [sequence], the nodes
    come back in the order of the response: the node at place [i] is
    the one made of the raw element at place [i], renumbered [i + 1],
    and it has the layout slot of the index [i]. *)
Theorem repair_keeps_order_without_sequence (raw : list value) :
  (forall element q, In element raw ->
                     get element "sequence" <> Some (Num q)) ->
  processNodes raw = restamp 0 (mapNodes raw 0 raw) /\
  map position (processNodes raw)
  = map (fun i => calculateNodePosition i (List.length raw))
        (seq 0 (List.length raw)).
Proof.
  intros Hseq.
  assert (H : processNodes raw = restamp 0 (mapNodes raw 0 raw)).
  { unfold processNodes. f_equal. apply sort_of_sorted.
    apply (numbered_from _ 1).
    rewrite length_mapNodes.
    exact (mapNodes_default_sequence raw 0 raw Hseq). }
  split; [exact H|].
  now rewrite H, restamp_position, mapNodes_position.
Qed.

Lemma repair_keeps_order_without_sequence_witness :
  map id (processNodes [Obj [("id", Str "z")]; Null; Obj [("id", Str "a")]])
  = [Str "z"; Str "node_2"; Str "a"].
Proof.
  destruct (repair_keeps_order_without_sequence
              [Obj [("id", Str "z")]; Null; Obj [("id", Str "a")]])
    as [-> _].
  - intros element q [<-|[<-|[<-|[]]]]; discriminate.
  - reflexivity.
Defined.

(** *** A well-formed element *)

(** X9.  A raw element that is well formed goes through the repair of
    one element untouched, but for its progress, which is reset, and its
    children, of which those are kept that are the [id] of a raw element:
    an object with a non-empty string for [id], a title that starts with
    a number and a point, a non-empty [description] array, a [children]
    array and numbers for [sequence] and [timeNeeded], in a response none
    of whose elements is [null]. *)
Theorem processNode_well_formed
        (raw : list value) (index : nat) (fields : list (string * value))
        (nodeId nodeTitle : string) (nodeDescription nodeChildren : list value)
        (nodeSequence nodeTimeNeeded : number) :
  (forall element, In element raw -> get element "id" <> None) ->
  lookup "id" fields = Str nodeId -> nodeId <> "" ->
  lookup "title" fields = Str nodeTitle ->
  hasNumberPrefix nodeTitle = true ->
  lookup "description" fields = Arr nodeDescription ->
  nodeDescription <> [] ->
  lookup "children" fields = Arr nodeChildren ->
  lookup "sequence" fields = Num nodeSequence ->
  lookup "timeNeeded" fields = Num nodeTimeNeeded ->
  processNode raw (Obj fields) index
  = Some {| id := Str nodeId;
            title := nodeTitle;
            description := nodeDescription;
            children := filter (hasRawId raw) nodeChildren;
            sequence := nodeSequence;
            timeNeeded := nodeTimeNeeded;
            completed := false;
            timeConsumed := 0%Q;
            position := calculateNodePosition index (List.length raw) |}.
Proof.
  intros Hraw Hid Hne Htitle Hprefix Hdesc Hd Hchildren Hseq Htime.
  unfold processNode. cbn [get].
  rewrite Hid, Htitle, Hdesc, Hchildren, Hseq, Htime.
  assert (truthy (Str nodeId) = true) as Ti.
  { destruct nodeId; [congruence|reflexivity]. }
  assert (truthy (Str nodeTitle) = true) as Tt.
  { destruct nodeTitle; [discriminate|reflexivity]. }
  unfold orElse. rewrite Ti, Tt, Hprefix, (filterChildren_filter _ _ Hraw).
  cbn [negb]. destruct nodeDescription; [congruence|reflexivity].
Qed.

Lemma processNode_well_formed_witness :
  option_map children
    (processNode
       [Obj [("id", Str "a"); ("title", Str "1. Intro");
             ("description", Arr [Str "Read"]);
             ("children", Arr [Str "b"; Str "a"]);
             ("sequence", Num 1%Q); ("timeNeeded", Num 2%Q)]]
       (Obj [("id", Str "a"); ("title", Str "1. Intro");
             ("description", Arr [Str "Read"]);
             ("children", Arr [Str "b"; Str "a"]);
             ("sequence", Num 1%Q); ("timeNeeded", Num 2%Q)]) 0)
  = Some [Str "a"].
Proof.
  rewrite (processNode_well_formed
             _ 0 _ "a" "1. Intro" [Str "Read"] [Str "b"; Str "a"] 1%Q 2%Q);
    try reflexivity; try discriminate.
  intros element [<-|[]]. discriminate.
Defined.

(** *** A response wrapped in prose *)

(** X10.  A JSON object wrapped in prose is found, whatever
    [JSON.parse] returns and throws: when [JSON.parse] throws on the text
    of the response, and the text has no opening brace before the object
    and no closing brace after it, the brace span is the object; when the
    object parses, the repair pass gives what it gives for the object
    alone; when it does not, the repair pass throws the ParseError made
    of the message of the failed parse of the whole text. *)
Theorem repair_extracts_wrapped_object
  (JSON_parse : string -> string + value)
  (before body after message : string) :
  occurs "{" before = false -> occurs "}" after = false ->
  JSON_parse (before ++ "{" ++ body ++ "}" ++ after) = inl message ->
  matchBraces (before ++ "{" ++ body ++ "}" ++ after)
  = Some ("{" ++ body ++ "}") /\
  (forall v, JSON_parse ("{" ++ body ++ "}") = inr v ->
     repairWith JSON_parse (before ++ "{" ++ body ++ "}" ++ after)
     = repairWith JSON_parse ("{" ++ body ++ "}")) /\
  (forall m, JSON_parse ("{" ++ body ++ "}") = inl m ->
     repairWith JSON_parse (before ++ "{" ++ body ++ "}" ++ after)
     = inl (Error (parseFailed ++ message))).
Proof.
  intros Hb Ha Hwhole.
  pose proof (matchBraces_wrapped before body after Hb Ha) as Hspan.
  split; [exact Hspan|]. split.
  - intros v Hv. unfold repairWith, parseResponseWith.
    now rewrite Hwhole, Hspan, Hv.
  - intros m Hm. unfold repairWith, parseResponseWith.
    now rewrite Hwhole, Hspan, Hm.
Qed.

(** With [jsonParse] for [JSON.parse]. *)
Lemma repair_extracts_wrapped_object_witness :
  repair (js "Here you go: {'nodes':[{'id':'node_1'}]} Thanks!")
  = repair (js "{'nodes':[{'id':'node_1'}]}").
Proof.
  exact (proj1 (proj2 (repair_extracts_wrapped_object jsonParse
                         "Here you go: " (js "'nodes':[{'id':'node_1'}]")
                         " Thanks!" syntaxErrorMessage
                         eq_refl eq_refl eq_refl))
           (Obj [("nodes", Arr [Obj [("id", Str "node_1")]])]) eq_refl).
Defined.

End RepairMore.

(* ================================================================= *)
(** ** More on generateRoadmap *)

Module GenerateMore.
Import Ai Spec Terms Repair.

Lemma validatePrompt_true (prompt : string) (b : bool) :
  validatePrompt prompt = inr b -> b = true.
Proof.
  unfold validatePrompt.
  repeat match goal with
         | |- context [if ?c then _ else _] => destruct c
         | |- context [match ?o with Some _ => _ | None => _ end] =>
             destruct o
         end;
    intros [= <-]; reflexivity.
Qed.

Lemma catchBlock_plain env prompt level (e : JsError) :
  Plain e -> catchBlock env prompt level e = inl e.
Proof.
  destruct e as [msg resp]. intros [Hresp Hmsg]. simpl in *. subst resp.
  unfold catchBlock, statusIs. simpl. now rewrite Hmsg.
Qed.

Lemma repair_error_plain (text : string) (e : JsError) :
  repair text = inl e -> Plain e.
Proof.
  intros H.
  destruct (parses_or_not text) as [[v Hv]|Hu].
  - destruct (has_nodes_or_not v) as [[raw Hraw]|Hnone].
    + rewrite (repair_accepts _ _ _ Hv Hraw) in H. discriminate.
    + unfold repair in H. rewrite (parseResponse_ok _ _ Hv) in H.
      destruct (nodesOf_fail v Hnone) as (e' & He & [-> | ->]);
        rewrite He in H; injection H as <-; split; reflexivity.
  - unfold repair in H. rewrite (parseResponse_fail _ Hu) in H.
    injection H as <-. split; reflexivity.
Qed.

(** X11.  With a prompt the validator accepts and no API key in the
    environment, or an empty one, generateRoadmap throws the error of the
    missing key and sends no request. *)
Theorem generateRoadmap_missing_key
        (env : Env) (prompt : string) (level : Level)
        (roadmapType : RoadmapType) :
  validatePrompt prompt = inr true ->
  GROQ_API_KEY env = None \/ GROQ_API_KEY env = Some "" ->
  generateRoadmap env prompt level roadmapType = ([], inl (Error keyMissing)).
Proof.
  intros Hv Hkey. unfold generateRoadmap, tryBlock. rewrite Hv.
  destruct Hkey as [-> | ->]; reflexivity.
Qed.

Lemma generateRoadmap_missing_key_witness :
  generateRoadmap
    {| GROQ_API_KEY := None; NODE_ENV := Some "production";
       axios_post := fun _ => Fulfilled Null;
       Math_random := fun _ => 0%Q |}
    "Python" beginner topicWise
  = ([], inl (Error keyMissing)).
Proof. apply generateRoadmap_missing_key; [reflexivity | now left]. Defined.

(** X12.  generateRoadmap sends one request at most, and none unless the
    validator accepts the prompt and the key is set; the request goes to
    the completions endpoint with the key as bearer token, the prompt of
    the roadmap for the level, and a timeout of 30 seconds. *)
Theorem generateRoadmap_one_request
        (env : Env) (prompt : string) (level : Level)
        (roadmapType : RoadmapType) :
  fst (generateRoadmap env prompt level roadmapType) = [] \/
  exists key request,
    fst (generateRoadmap env prompt level roadmapType) = [request] /\
    validatePrompt prompt = inr true /\
    GROQ_API_KEY env = Some key /\ key <> "" /\
    url request = "https://api.groq.com/openai/v1/chat/completions" /\
    authorization request = "Bearer " ++ key /\
    userContent request = roadmapPrompt prompt level /\
    timeout request = 30000%Z.
Proof.
  unfold generateRoadmap, tryBlock.
  destruct (validatePrompt prompt) as [e|b] eqn:Hv; [now left|].
  apply validatePrompt_true in Hv as Hb. subst b.
  destruct (GROQ_API_KEY env) as [[|c key]|]; [now left| |now left].
  right. exists (String c key), (buildRequest (String c key) prompt level).
  repeat split; try reflexivity. discriminate.
Qed.

(** X13.  Whatever generateRoadmap throws is an error with a message that
    is not empty and without the response of the service. *)
Theorem generateRoadmap_error_shape
        (env : Env) (prompt : string) (level : Level)
        (roadmapType : RoadmapType) (e : JsError) :
  snd (generateRoadmap env prompt level roadmapType) = inl e ->
  message e <> "" /\ response e = None.
Proof.
  unfold generateRoadmap.
  destruct (tryBlock env prompt level) as [sent [error|nodes]];
    cbn [snd]; [|discriminate].
  unfold catchBlock.
  repeat match goal with
         | |- context [if ?c then _ else _] => destruct c eqn:?
         | |- context [match ?o with Some _ => _ | None => _ end] =>
             destruct o
         end;
    intros [= <-]; split; try reflexivity; try discriminate.
  cbn [message Error]. intros H. rewrite H in *. discriminate.
Qed.

Lemma generateRoadmap_error_shape_witness :
  message (Error badRequest) <> "" /\ response (Error badRequest) = None.
Proof.
  apply (generateRoadmap_error_shape
           {| GROQ_API_KEY := Some "gsk_test"; NODE_ENV := Some "production";
              axios_post := fun _ =>
                Rejected {| message := "";
                            response := Some {| status := 400;
                                                data := Null |} |};
              Math_random := fun _ => 0%Q |}
           "Python" beginner topicWise).
  reflexivity.
Defined.

Lemma sent_request env prompt level roadmapType request :
  fst (generateRoadmap env prompt level roadmapType) = [request] ->
  generateRoadmap env prompt level roadmapType
  = ([request],
     match match axios_post env request with
           | Fulfilled body => readResponse body
           | Rejected e => inl e
           end with
     | inr processedNodes => inr processedNodes
     | inl error => catchBlock env prompt level error
     end).
Proof.
  unfold generateRoadmap, tryBlock.
  destruct (validatePrompt prompt); [discriminate|].
  destruct (GROQ_API_KEY env) as [[|c key]|]; try discriminate.
  cbn [fst]. now intros [= <-].
Qed.

(** X14.  When the service rejects the request with the status 400,
    generateRoadmap returns the fallback nodes (8, 12 or 15 of them, by
    the level) if [NODE_ENV] is [development], and throws the error of
    the bad request in every other environment. *)
Theorem generateRoadmap_bad_request
        (env : Env) (prompt : string) (level : Level)
        (roadmapType : RoadmapType)
        (request : Request) (error : JsError) (answer : HttpResponse) :
  fst (generateRoadmap env prompt level roadmapType) = [request] ->
  axios_post env request = Rejected error ->
  response error = Some answer -> status answer = 400 ->
  (NODE_ENV env = Some "development" ->
   exists nodes,
     snd (generateRoadmap env prompt level roadmapType) = inr nodes /\
     nodes = createFallbackNodes prompt (levelName level) (Math_random env) /\
     List.length nodes = nodeCountOf level) /\
  (NODE_ENV env <> Some "development" ->
   snd (generateRoadmap env prompt level roadmapType)
   = inl (Error badRequest)).
Proof.
  intros Hsent Hpost Hresp Hstatus.
  rewrite (sent_request _ _ _ _ _ Hsent), Hpost. cbn [snd].
  unfold catchBlock, statusIs. rewrite Hresp, Hstatus. cbn [Nat.eqb].
  split.
  - intros ->. cbn. eexists. split; [reflexivity|]. split; [reflexivity|].
    destruct level; reflexivity.
  - intros Hmode. destruct (NODE_ENV env) as [mode|]; [|reflexivity].
    destruct (String.eqb_spec mode "development") as [->|_];
      [congruence | reflexivity].
Qed.

Lemma generateRoadmap_bad_request_witness :
  exists nodes,
    snd (generateRoadmap
           {| GROQ_API_KEY := Some "gsk_test";
              NODE_ENV := Some "development";
              axios_post := fun _ =>
                Rejected {| message := "Request failed with status code 400";
                            response := Some {| status := 400;
                                                data := Null |} |};
              Math_random := fun _ => (1 # 2)%Q |}
           "Python" intermediate weekByWeek) = inr nodes /\
    List.length nodes = 12.
Proof.
  edestruct (generateRoadmap_bad_request
               {| GROQ_API_KEY := Some "gsk_test";
                  NODE_ENV := Some "development";
                  axios_post := fun _ =>
                    Rejected {| message := "Request failed with status code 400";
                                response := Some {| status := 400;
                                                    data := Null |} |};
                  Math_random := fun _ => (1 # 2)%Q |}
               "Python" intermediate weekByWeek)
    as [Hdev _]; try reflexivity.
  destruct (Hdev eq_refl) as (nodes & Hnodes & _ & Hlen).
  exists nodes. split; [exact Hnodes | exact Hlen].
Defined.

(** X15.  Outside the development environment the nodes generateRoadmap
    returns are never the fallback ones: a request was sent, the service
    fulfilled it, and the nodes are what the repair pass makes of the
    trimmed content of its first choice. *)
Theorem generateRoadmap_nodes_come_from_service
        (env : Env) (prompt : string) (level : Level)
        (roadmapType : RoadmapType) (nodes : list RoadmapNode) :
  NODE_ENV env <> Some "development" ->
  snd (generateRoadmap env prompt level roadmapType) = inr nodes ->
  exists request body content,
    fst (generateRoadmap env prompt level roadmapType) = [request] /\
    axios_post env request = Fulfilled body /\
    contentOf body = Str content /\
    repair (trim content) = inr nodes.
Proof.
  intros Hmode.
  assert (Hcatch : forall e, catchBlock env prompt level e <> inr nodes).
  { intros e. unfold catchBlock.
    destruct (statusIs e 400); [|discriminate].
    destruct (NODE_ENV env) as [mode|]; [|discriminate].
    destruct (String.eqb_spec mode "development") as [->|_];
      [congruence | discriminate]. }
  unfold generateRoadmap, tryBlock.
  destruct (validatePrompt prompt) as [e|b]; cbn [fst snd].
  { intros H. now apply Hcatch in H. }
  destruct (GROQ_API_KEY env) as [[|c key]|]; cbn [fst snd];
    try (intros H; now apply Hcatch in H).
  set (request := buildRequest (String c key) prompt level).
  destruct (axios_post env request) as [body|e] eqn:Hpost;
    [|intros H; now apply Hcatch in H].
  unfold readResponse.
  destruct (negb (truthy (contentOf body)));
    [intros H; now apply Hcatch in H|].
  destruct (contentOf body) as [| | | |content| |] eqn:Hcontent;
    try (intros H; now apply Hcatch in H).
  destruct (repair (trim content)) as [e|processed] eqn:Hrepair;
    [intros H; now apply Hcatch in H|].
  intros [= <-]. exists request, body, content. auto.
Qed.

Lemma generateRoadmap_nodes_come_from_service_witness :
  exists request body content,
    fst (generateRoadmap
           {| GROQ_API_KEY := Some "gsk_test"; NODE_ENV := None;
              axios_post := fun _ =>
                Fulfilled
                  (Obj [("choices",
                         Arr [Obj [("message",
                                    Obj [("content",
                                          Str (js " {'nodes':[3]} "))])]])]);
              Math_random := fun _ => 0%Q |}
           "Python" beginner weekByWeek) = [request] /\
    Fulfilled
      (Obj [("choices",
             Arr [Obj [("message",
                        Obj [("content", Str (js " {'nodes':[3]} "))])]])])
    = Fulfilled body /\
    contentOf body = Str content /\
    exists nodes, repair (trim content) = inr nodes /\ List.length nodes = 1.
Proof.
  destruct (generateRoadmap_nodes_come_from_service
              {| GROQ_API_KEY := Some "gsk_test"; NODE_ENV := None;
                 axios_post := fun _ =>
                   Fulfilled
                     (Obj [("choices",
                            Arr [Obj [("message",
                                       Obj [("content",
                                             Str (js " {'nodes':[3]} "))])]])]);
                 Math_random := fun _ => 0%Q |}
              "Python" beginner weekByWeek
              (processNodes [Num 3%Q]))
    as (request & body & content & Hsent & Hpost & Hcontent & Hrepair).
  - discriminate.
  - vm_compute. reflexivity.
  - exists request, body, content. repeat split; try assumption.
    exists (processNodes [Num 3%Q]). split; [exact Hrepair | reflexivity].
Defined.

(** X16.  What generateRoadmap does with a fulfilled request: when the
    body has no truthy [choices[0].message.content] it throws the error
    of the invalid response; when the content is a string, it returns
    or throws exactly what the repair pass does on the trimmed content;
    and a truthy content that is no string ends in the TypeError of
    [trim]. *)
Theorem generateRoadmap_fulfilled
        (env : Env) (prompt : string) (level : Level)
        (roadmapType : RoadmapType) (request : Request) (body : value) :
  fst (generateRoadmap env prompt level roadmapType) = [request] ->
  axios_post env request = Fulfilled body ->
  (truthy (contentOf body) = false ->
   snd (generateRoadmap env prompt level roadmapType)
   = inl (Error invalidResponse)) /\
  (forall content, contentOf body = Str content -> content <> "" ->
     snd (generateRoadmap env prompt level roadmapType)
     = repair (trim content)) /\
  (truthy (contentOf body) = true ->
   (forall content, contentOf body <> Str content) ->
   snd (generateRoadmap env prompt level roadmapType)
   = inl (Error trimNotAFunction)).
Proof.
  intros Hsent Hpost.
  rewrite (sent_request _ _ _ _ _ Hsent), Hpost. cbn [snd].
  unfold readResponse. split; [|split].
  - intros ->. reflexivity.
  - intros content -> Hne.
    assert (truthy (Str content) = true) as ->
        by (destruct content; [congruence|reflexivity]).
    cbn [negb]. destruct (repair (trim content)) as [e|nodes] eqn:E;
      [|reflexivity].
    apply catchBlock_plain. now apply repair_error_plain in E.
  - intros -> Hnot. cbn [negb].
    destruct (contentOf body); try reflexivity.
    now elim (Hnot s).
Qed.

Lemma generateRoadmap_fulfilled_witness :
  snd (generateRoadmap
         {| GROQ_API_KEY := Some "gsk_test"; NODE_ENV := None;
            axios_post := fun _ => Fulfilled (Obj [("choices", Arr [])]);
            Math_random := fun _ => 0%Q |}
         "Python" beginner weekByWeek)
  = inl (Error invalidResponse).
Proof.
  eapply generateRoadmap_fulfilled; reflexivity.
Defined.

End GenerateMore.

(* ================================================================= *)
(** ** More on the fallback generator *)

Module FallbackMore.
Import Ai Spec Terms Fallback.

Lemma nth_error_fallback prompt level random i :
  i < nodeCountOf level ->
  nth_error (createFallbackNodes prompt (levelName level) random) i
  = Some (fallbackNode prompt (nodeCountOf level) random i).
Proof.
  intros Hi. rewrite createFallbackNodes_unfold, nth_error_map, nth_error_seq.
  apply Nat.ltb_lt in Hi. now rewrite Hi.
Qed.

(** X17.  The fallback roadmap is well formed whatever the prompt and the
    random numbers: the ids are [node_1] to [node_N] without repeat, the
    sequence values 1 to N, no node is completed or has time consumed,
    a node has two children at most, and every child is the id of a
    node further down the list, so no child dangles and no path comes
    back. *)
Theorem createFallbackNodes_well_formed
        (prompt : string) (level : Level) (random : nat -> number) :
  let nodes := createFallbackNodes prompt (levelName level) random in
  let count := nodeCountOf level in
  map id nodes = map (fun k => Str ("node_" ++ show k)) (seq 1 count) /\
  NoDup (map id nodes) /\
  map sequence nodes = map ofNat (seq 1 count) /\
  Forall (fun n => completed n = false /\ timeConsumed n = 0%Q) nodes /\
  (forall i n, nth_error nodes i = Some n ->
     List.length (children n) <= 2 /\
     forall childId, In childId (children n) ->
       exists j m, i < j /\ nth_error nodes j = Some m /\ id m = childId).
Proof.
  intros nodes count. subst nodes count.
  split; [destruct level; reflexivity|].
  split.
  { destruct level; vm_compute;
      repeat (constructor; [simpl; intuition discriminate|]); constructor. }
  split; [destruct level; reflexivity|].
  split.
  { rewrite createFallbackNodes_unfold. apply Forall_forall.
    intros n Hin. apply in_map_iff in Hin as (i & <- & _). now split. }
  intros i n Hnth.
  rewrite createFallbackNodes_unfold in Hnth.
  apply nth_error_map_seq in Hnth as [Hi ->].
  cbn [children fallbackNode].
  destruct (Nat.ltb_spec i (nodeCountOf level - 2)) as [Hearly|Hlate];
    [|split; [simpl; lia | intros ? []]].
  split.
  - rewrite length_map. cbn [filter].
    do 2 destruct (withinCount _ _); simpl; lia.
  - intros childId Hin. apply in_map_iff in Hin as (name & <- & Hin).
    apply filter_In in Hin as [[<-|[<-|[]]] _].
    + exists (i + 1), (fallbackNode prompt (nodeCountOf level) random (i + 1)).
      split; [lia|]. split; [apply nth_error_fallback; lia|].
      cbn [id fallbackNode]. now replace (i + 1 + 1) with (i + 2) by lia.
    + exists (i + 2), (fallbackNode prompt (nodeCountOf level) random (i + 2)).
      split; [lia|]. split; [apply nth_error_fallback; lia|].
      cbn [id fallbackNode]. now replace (i + 2 + 1) with (i + 3) by lia.
Qed.

(** X18.  At the intermediate and the advanced level the count has two
    digits and the ids are compared with it as strings, so a child is
    kept only when its number has two digits: of the children
    [node_(i+2)] and [node_(i+3)] of the node at place [i], the first is
    kept when [i >= 8] and the second when [i >= 7], and the first seven
    nodes have none. *)
Theorem createFallbackNodes_two_digit_children
        (prompt : string) (level : Level) (random : nat -> number)
        (i : nat) (n : RoadmapNode) :
  level <> beginner ->
  nth_error (createFallbackNodes prompt (levelName level) random) i = Some n ->
  i < nodeCountOf level - 2 ->
  children n
  = ((if (8 <=? i)%nat then [Str ("node_" ++ show (i + 2))] else [])
     ++ (if (7 <=? i)%nat then [Str ("node_" ++ show (i + 3))] else []))%list.
Proof.
  intros Hlevel Hnth Hi.
  rewrite createFallbackNodes_unfold in Hnth.
  apply nth_error_map_seq in Hnth as [_ ->].
  destruct level; [congruence| |]; simpl in Hi;
    do 13 (destruct i as [|i]; [first [reflexivity | exfalso; lia]|]);
    exfalso; lia.
Qed.

Lemma createFallbackNodes_two_digit_children_witness :
  exists n,
    nth_error (createFallbackNodes "Python" "advanced" (fun _ => 0%Q)) 0
    = Some n /\ children n = [].
Proof.
  eexists. split; [reflexivity|].
  apply (createFallbackNodes_two_digit_children
           "Python" advanced (fun _ => 0%Q) 0);
    [discriminate | reflexivity | simpl; lia].
Defined.

End FallbackMore.

(* ================================================================= *)
(** ** The connection to the database *)

Module DbMore.
Import Ai Db Terms.

Lemma quotedTail_last (body : string) (q : ascii) :
  isQuote q = true -> singleLine body = true ->
  quotedTail (body ++ String q "") = Some body.
Proof.
  intros Hq. induction body as [|c body IH]; intros Hbody.
  - simpl. now rewrite Hq.
  - simpl in Hbody. apply andb_prop in Hbody as [Hc Hb].
    apply negb_true_iff in Hc.
    change (String c body ++ String q "")
      with (String c (body ++ String q "")).
    cbn [quotedTail]. rewrite Hc, (IH Hb).
    destruct (body ++ String q "") eqn:E; [|reflexivity].
    destruct body; discriminate.
Qed.

(** X19.  The connection string loses one pair of quotes around it, of
    either kind, and a string that does not start with a quote is used
    as it is. *)
Theorem cleanQuotes_strips_one_pair :
  (forall (open close : ascii) (body : string),
      isQuote open = true -> isQuote close = true ->
      singleLine body = true ->
      cleanQuotes (String open (body ++ String close "")) = body) /\
  (forall (c : ascii) (rest : string),
      isQuote c = false -> cleanQuotes (String c rest) = String c rest).
Proof.
  split.
  - intros open close body Ho Hc Hb. unfold cleanQuotes.
    now rewrite Ho, (quotedTail_last body close Hc Hb).
  - intros c rest Hc. unfold cleanQuotes. now rewrite Hc.
Qed.

Lemma cleanQuotes_strips_one_pair_witness :
  cleanQuotes (js "'mongodb://localhost:27017/learn'")
  = "mongodb://localhost:27017/learn" /\
  cleanQuotes "mongodb://localhost:27017/learn"
  = "mongodb://localhost:27017/learn".
Proof.
  split.
  - apply (proj1 cleanQuotes_strips_one_pair
             dquote dquote "mongodb://localhost:27017/learn");
      reflexivity.
  - apply (proj2 cleanQuotes_strips_one_pair). reflexivity.
Defined.

(** X20.  Which variable names the database: [MONGODB_URI] when it is
    set and not empty, [MONGO_URI] otherwise; loading the module throws
    when the one chosen is unset or empty. *)
Theorem cleanURI_precedence (env : ProcessEnv) :
  (forall uri, MONGODB_URI env = Some uri -> uri <> "" ->
               cleanURI env = inr (cleanQuotes uri)) /\
  (MONGODB_URI env = None \/ MONGODB_URI env = Some "" ->
   (forall uri, MONGO_URI env = Some uri -> uri <> "" ->
                cleanURI env = inr (cleanQuotes uri)) /\
   (MONGO_URI env = None \/ MONGO_URI env = Some "" ->
    cleanURI env = inl (Error uriMissing))).
Proof.
  unfold cleanURI, configuredURI. split.
  - intros uri -> Hne. destruct uri; [congruence|reflexivity].
  - intros Hfirst.
    assert (match MONGODB_URI env with
            | Some (String c r) => Some (String c r)
            | _ => MONGO_URI env
            end = MONGO_URI env) as ->
        by (destruct Hfirst as [-> | ->]; reflexivity).
    split.
    + intros uri -> Hne. destruct uri; [congruence|reflexivity].
    + intros [-> | ->]; reflexivity.
Qed.

Lemma cleanURI_precedence_witness :
  cleanURI {| MONGODB_URI := Some ""; MONGO_URI := Some "'mongodb://db'" |}
  = inr "mongodb://db".
Proof.
  destruct (proj2 (cleanURI_precedence
                     {| MONGODB_URI := Some "";
                        MONGO_URI := Some "'mongodb://db'" |}))
    as [H _]; [now right|].
  apply (H "'mongodb://db'"); [reflexivity | discriminate].
Defined.

(** X21.  A connection that was made is kept: after a call of connectDB
    that returned a connection, every later call returns the same
    connection and calls [mongoose.connect] no more.  A failure is not
    kept: after a call that threw, the cache is empty and the next call
    calls [mongoose.connect] again. *)
Theorem connectDB_keeps_success_only
        {Connection : Type}
        (mongooseConnect later : nat -> JsError + Connection)
        (st st' : DbState Connection) :
  (forall c, connectDB mongooseConnect st = (inr c, st') ->
             connectDB later st' = (inr c, st')) /\
  (forall e, connectDB mongooseConnect st = (inl e, st') ->
             conn (cached st') = None /\ promise (cached st') = None /\
             fst (connectDB later st') = later (attempts st') /\
             attempts (snd (connectDB later st')) = S (attempts st')).
Proof.
  unfold connectDB. split.
  - intros c.
    destruct (conn (cached st)) as [c0|] eqn:Ec.
    + intros [= <- <-]. now rewrite Ec.
    + destruct (promise (cached st)) as [[e|c1]|];
        try destruct (mongooseConnect (attempts st)) as [e|c1];
        intros [= <- <-]; reflexivity.
  - intros e.
    destruct (conn (cached st)) as [c0|] eqn:Ec; [discriminate|].
    destruct (promise (cached st)) as [[e1|c1]|];
      try destruct (mongooseConnect (attempts st)) as [e1|c1];
      intros [= <- <-]; cbn; destruct (later _); auto.
Qed.

(** X22.  A run of awaited calls of connectDB from the empty cache calls
    [mongoose.connect] once for each call until one succeeds, and never
    after: the calls before the first success throw its errors, every
    call from the first success on returns its connection. *)
Theorem connectTimes_until_first_success
        {Connection : Type}
        (mongooseConnect : nat -> JsError + Connection) (n : nat) :
  let k := leadingFailures mongooseConnect 0 n in
  fst (connectTimes mongooseConnect n initialState)
  = (map mongooseConnect (seq 0 k) ++ repeat (mongooseConnect k) (n - k))%list
  /\
  attempts (snd (connectTimes mongooseConnect n initialState))
  = Nat.min n (k + 1).
Proof.
  assert (Hconnected : forall m c (st : DbState Connection),
             conn (cached st) = Some c ->
             connectTimes mongooseConnect m st = (repeat (inr c) m, st)).
  { induction m as [|m IH]; intros c st Hc; simpl; [reflexivity|].
    unfold connectDB. rewrite Hc. now rewrite (IH c st Hc). }
  assert (Hclean : forall m from (st : DbState Connection),
             conn (cached st) = None -> promise (cached st) = None ->
             attempts st = from ->
             let k := leadingFailures mongooseConnect from m in
             fst (connectTimes mongooseConnect m st)
             = (map mongooseConnect (seq from k)
                ++ repeat (mongooseConnect (from + k)) (m - k))%list /\
             attempts (snd (connectTimes mongooseConnect m st))
             = from + Nat.min m (k + 1)).
  { induction m as [|m IH]; intros from st Hc Hp Ha;
      cbv zeta; cbn [connectTimes leadingFailures].
    - cbn [fst snd seq map app repeat Nat.sub]. split; [reflexivity | lia].
    - unfold connectDB. rewrite Hc, Hp, Ha.
      destruct (mongooseConnect from) as [e|c] eqn:Ef.
      + match goal with
        | |- context [connectTimes mongooseConnect m ?s] =>
            destruct (IH (S from) s eq_refl eq_refl eq_refl) as [Hr Hn];
            destruct (connectTimes mongooseConnect m s) as [rs st2]
        end.
        cbv zeta in Hr, Hn. cbn [fst snd] in *.
        cbn [seq map app Nat.sub]. rewrite Ef, Hr.
        replace (S from + leadingFailures mongooseConnect (S from) m)
          with (from + S (leadingFailures mongooseConnect (S from) m))
          by lia.
        split; [reflexivity|]. rewrite Hn. lia.
      + match goal with
        | |- context [connectTimes mongooseConnect m ?s] =>
            rewrite (Hconnected m c s eq_refl)
        end.
        cbn [fst snd seq map app attempts Nat.sub].
        rewrite Nat.add_0_r, Ef. split; [reflexivity | lia]. }
  intros k. exact (Hclean n 0 initialState eq_refl eq_refl eq_refl).
Qed.

End DbMore.

(* ================================================================= *)
(** ** The details panel *)

Module PanelMore.
Import Ai Panel Terms.

Lemma split_not_nil (sep : ascii) (s : string) : split sep s <> [].
Proof.
  induction s as [|c s IH]; simpl; [discriminate|].
  destruct (Ascii.eqb c sep); [discriminate|].
  destruct (split sep s); [congruence|discriminate].
Qed.

Lemma join_cons (sep part : string) (rest : list string) :
  rest <> [] -> join sep (part :: rest) = part ++ sep ++ join sep rest.
Proof. destruct rest; [congruence|reflexivity]. Qed.

Lemma join_split (sep : ascii) (s : string) :
  join (String sep "") (split sep s) = s.
Proof.
  induction s as [|c s IH]; [reflexivity|]. cbn [split].
  pose proof (split_not_nil sep s) as Hne.
  destruct (Ascii.eqb_spec c sep) as [->|Hc].
  - rewrite (join_cons _ _ _ Hne), IH. reflexivity.
  - destruct (split sep s) as [|h t]; [congruence|].
    destruct t as [|h' t].
    + cbn [join] in *. now rewrite IH.
    + rewrite join_cons by discriminate.
      rewrite join_cons in IH by discriminate.
      cbn [append] in *. f_equal. exact IH.
Qed.

Lemma split_app_sep (sep : ascii) (part rest : string) :
  occurs sep part = false ->
  split sep (part ++ String sep rest) = part :: split sep rest.
Proof.
  induction part as [|c part IH]; intros H.
  - cbn [append split]. now rewrite Ascii.eqb_refl.
  - simpl in H. apply orb_false_elim in H as [Hc Hp].
    change (String c part ++ String sep rest)
      with (String c (part ++ String sep rest)).
    cbn [split]. now rewrite Hc, (IH Hp).
Qed.

Lemma split_single (sep : ascii) (part : string) :
  occurs sep part = false -> split sep part = [part].
Proof.
  induction part as [|c part IH]; intros H; [reflexivity|].
  simpl in H. apply orb_false_elim in H as [Hc Hp].
  cbn [split]. now rewrite Hc, (IH Hp).
Qed.

(** X24.  Editing the description loses nothing: the text area shows the
    bullets one on a line, and splitting the text at the line feeds
    gives the description back when it is not empty and no bullet holds
    a line feed; joining the lines of any text gives the text back.  The
    empty description comes back as one empty bullet. *)
Theorem description_round_trip :
  (forall description,
      description <> [] ->
      Forall (fun bullet => occurs newline bullet = false) description ->
      descriptionOfText (descriptionText description) = description) /\
  (forall text, descriptionText (descriptionOfText text) = text) /\
  descriptionOfText (descriptionText []) = [""].
Proof.
  unfold descriptionOfText, descriptionText. split; [|split].
  - intros description Hne Hall.
    induction Hall as [|bullet rest Hb Hrest IH]; [congruence|].
    destruct rest as [|next rest'].
    + cbn [join]. now apply split_single.
    + change (join (String newline "") (bullet :: next :: rest'))
        with (bullet ++ String newline (join (String newline "")
                                            (next :: rest'))).
      rewrite (split_app_sep _ _ _ Hb), IH; [reflexivity|discriminate].
  - intros text. apply join_split.
  - reflexivity.
Qed.

Lemma description_round_trip_witness :
  descriptionOfText (descriptionText ["Read the docs"; "Write code"])
  = ["Read the docs"; "Write code"].
Proof.
  apply (proj1 description_round_trip); [discriminate|].
  repeat constructor.
Defined.

End PanelMore.

(* ================================================================= *)
(** ** Sign-in *)

Module AuthMore.
Import Ai Terms Auth.

Lemma split_parts_free (sep : ascii) (s : string) :
  Forall (fun part => occurs sep part = false) (split sep s).
Proof.
  induction s as [|c s IH]; simpl; [repeat constructor|].
  destruct (Ascii.eqb c sep) eqn:E; [now constructor|].
  destruct (split sep s) as [|h t]; [repeat constructor; simpl; now rewrite E|].
  inversion IH as [|? ? Hh Ht]; subst.
  constructor; [|exact Ht]. simpl. now rewrite E, Hh.
Qed.

Lemma firstName_no_space (user : Profile.t) :
  occurs " " (NewUser.firstName (newUser user)) = false.
Proof.
  unfold newUser, nameParts. cbn [NewUser.firstName].
  pose proof (split_parts_free " " match Profile.name user with
                                   | Some n => n
                                   | None => ""
                                   end) as H.
  destruct (split " " _) as [|h t]; [reflexivity|].
  now inversion H.
Qed.

(** X25.  [authorize] returns a user only after it has checked it: the
    email and the password were given, the account found under that
    email has a password hash, bcrypt matched the password with it, and
    the role asked for, if any, is the role of the account.  The data
    returned are those of the account, and the collaborators were called
    in this order: the connection, the lookup, the comparison. *)
Theorem authorize_grants_only_verified
        {Connection : Type} (w : World Connection)
        (credentials : option Credentials.t)
        (st st' : Db.DbState Connection) (calls : list Call)
        (data : UserData.t) :
  authorize w credentials st = (calls, inr data, st') ->
  exists c email password user hash,
    credentials = Some c /\
    Credentials.email c = Some email /\ email <> "" /\
    Credentials.password c = Some password /\ password <> "" /\
    findOne w (Some email) = inr (Some user) /\
    User.password user = Some hash /\ hash <> "" /\
    compare w password hash = inr true /\
    roleDiffers (Credentials.role c) (User.role user) = false /\
    UserData.firstName data = User.firstName user /\
    UserData.lastName data = User.lastName user /\
    UserData.email data = User.email user /\
    UserData.role data = User.role user /\
    UserData.id data = User._id user /\
    calls = [ConnectDB; FindOne (Some email); Compare password hash].
Proof.
  unfold authorize.
  destruct credentials as [c|]; [|discriminate].
  destruct (Credentials.email c) as [[|e0 e]|] eqn:Ee; try discriminate.
  destruct (Credentials.password c) as [[|p0 p]|] eqn:Ep; try discriminate.
  unfold bind, connect, await.
  destruct (Db.connectDB (mongooseConnect w) st) as [[err|cn] st1];
    [discriminate|].
  destruct (findOne w (Some (String e0 e))) as [err|[user|]] eqn:Ef;
    try discriminate.
  destruct (User.password user) as [[|h0 h]|] eqn:Eh; try discriminate.
  destruct (compare w (String p0 p) (String h0 h)) as [err|[|]] eqn:Ec;
    try discriminate.
  cbn [negb].
  destruct (roleDiffers (Credentials.role c) (User.role user)) eqn:Er;
    [discriminate|].
  unfold ret. intros [= <- <- <-].
  exists c, (String e0 e), (String p0 p), user, (String h0 h).
  repeat split; auto; discriminate.
Qed.

Lemma authorize_grants_only_verified_witness :
  exists c email password user hash,
    Some adaLogin = Some c /\
    Credentials.email c = Some email /\ email <> "" /\
    Credentials.password c = Some password /\ password <> "" /\
    findOne (store true) (Some email) = inr (Some user) /\
    User.password user = Some hash /\ hash <> "" /\
    compare (store true) password hash = inr true /\
    roleDiffers (Credentials.role c) (User.role user) = false /\
    UserData.firstName (UserData.make "Ada" "Lovelace" "ada@example.org"
                                      "admin" "u1") = User.firstName user /\
    UserData.lastName (UserData.make "Ada" "Lovelace" "ada@example.org"
                                     "admin" "u1") = User.lastName user /\
    UserData.email (UserData.make "Ada" "Lovelace" "ada@example.org"
                                  "admin" "u1") = User.email user /\
    UserData.role (UserData.make "Ada" "Lovelace" "ada@example.org"
                                 "admin" "u1") = User.role user /\
    UserData.id (UserData.make "Ada" "Lovelace" "ada@example.org"
                               "admin" "u1") = User._id user /\
    [ConnectDB; FindOne (Some "ada@example.org");
     Compare "secret" "$2a$10$hash"]
    = [ConnectDB; FindOne (Some email); Compare password hash].
Proof.
  eapply (authorize_grants_only_verified
            (store true) (Some adaLogin) Db.initialState).
  reflexivity.
Defined.

(** X26.  Without an email or without a password, absent or empty,
    [authorize] throws at once: no collaborator is called and the
    connection cache is as it was. *)
Theorem authorize_needs_both
        {Connection : Type} (w : World Connection)
        (credentials : option Credentials.t) (st : Db.DbState Connection) :
  given (emailOf credentials) = false \/
  given (passwordOf credentials) = false ->
  authorize w credentials st = ([], inl (Error provideBoth), st).
Proof.
  unfold authorize, emailOf, passwordOf, given.
  destruct credentials as [c|]; [|reflexivity].
  destruct (Credentials.email c) as [[|e0 e]|]; try reflexivity.
  destruct (Credentials.password c) as [[|p0 p]|]; try reflexivity.
  intros [H|H]; discriminate.
Qed.

Lemma authorize_needs_both_witness :
  authorize (store true)
            (Some {| Credentials.email := Some "ada@example.org";
                     Credentials.password := Some "";
                     Credentials.role := None |})
            Db.initialState
  = ([], inl (Error provideBoth), Db.initialState).
Proof. apply authorize_needs_both. now right. Defined.

(** What [provision] does, case by case. *)
Lemma provision_cases {Connection : Type} (w : World Connection)
      (user : Profile.t) (st : Db.DbState Connection) :
  let lookup := FindOne (Profile.email user) in
  match Db.connectDB (mongooseConnect w) st with
  | (inl e, st1) => provision w user st = ([ConnectDB], inl e, st1)
  | (inr _, st1) =>
      match findOne w (Profile.email user) with
      | inl e => provision w user st = ([ConnectDB; lookup], inl e, st1)
      | inr (Some _) =>
          provision w user st = ([ConnectDB; lookup], inr true, st1)
      | inr None =>
          provision w user st
          = ([ConnectDB; lookup; Create (newUser user)],
             match create w (newUser user) with
             | inl e => inl e
             | inr _ => inr true
             end, st1)
      end
  end.
Proof.
  unfold provision, bind, connect, await, ret. cbv zeta.
  destruct (Db.connectDB (mongooseConnect w) st) as [[e|c] st1];
    [reflexivity|].
  destruct (findOne w (Profile.email user)) as [e|[found|]];
    try reflexivity.
  destruct (create w (newUser user)) as [e|[]]; reflexivity.
Qed.

(** X27.  A user is created by the [signIn] callback only for the google
    and the github provider, only when the lookup by the email of the
    profile found nobody, and once at most; the document has the role
    [user], whatever the profile says, and a first name without a
    space. *)
Theorem signIn_creates_plain_users
        {Connection : Type} (w : World Connection)
        (user : Profile.t) (provider : option string)
        (st st' : Db.DbState Connection) (calls : list Call)
        (r : JsError + bool) (doc : NewUser.t) :
  signIn w user provider st = (calls, r, st') ->
  In (Create doc) calls ->
  (provider = Some "google" \/ provider = Some "github") /\
  findOne w (Profile.email user) = inr None /\
  calls = [ConnectDB; FindOne (Profile.email user); Create doc] /\
  NewUser.role doc = "user" /\
  NewUser.email doc = Profile.email user /\
  occurs " " (NewUser.firstName doc) = false.
Proof.
  intros Hsign Hin.
  assert (Hprov : forall calls0 r0,
             provision w user st = (calls0, r0, st') ->
             In (Create doc) calls0 ->
             findOne w (Profile.email user) = inr None /\
             calls0 = [ConnectDB; FindOne (Profile.email user); Create doc] /\
             doc = newUser user).
  { intros calls0 r0 Hp Hc. pose proof (provision_cases w user st) as Hcases.
    cbv zeta in Hcases.
    destruct (Db.connectDB (mongooseConnect w) st) as [[e|c] st1].
    - rewrite Hcases in Hp. injection Hp as <- _ _.
      destruct Hc as [Hc|[]]; discriminate.
    - destruct (findOne w (Profile.email user)) as [e|[found|]];
        rewrite Hcases in Hp; injection Hp as <- _ _.
      + destruct Hc as [Hc|[Hc|[]]]; discriminate.
      + destruct Hc as [Hc|[Hc|[]]]; discriminate.
      + destruct Hc as [Hc|[Hc|[Hc|[]]]]; try discriminate.
        injection Hc as <-. auto. }
  assert (Hcatch : forall calls0 r0,
             rethrowAs creating (provision w user) st = (calls0, r0, st') ->
             exists r1, provision w user st = (calls0, r1, st')).
  { intros calls0 r0. unfold rethrowAs.
    destruct (provision w user st) as [[calls1 [e|b]] st1];
      intros [= <- _ <-]; eauto. }
  unfold signIn in Hsign.
  destruct (providerIs provider "google") eqn:Eg;
    [|destruct (providerIs provider "github") eqn:Eh].
  - apply Hcatch in Hsign as [r1 Hp].
    destruct (Hprov _ _ Hp Hin) as (Hf & Hcalls & ->).
    repeat split; auto; try apply firstName_no_space.
    left. unfold providerIs in Eg. destruct provider as [p|]; [|discriminate].
    now apply String.eqb_eq in Eg as ->.
  - apply Hcatch in Hsign as [r1 Hp].
    destruct (Hprov _ _ Hp Hin) as (Hf & Hcalls & ->).
    repeat split; auto; try apply firstName_no_space.
    right. unfold providerIs in Eh. destruct provider as [p|]; [|discriminate].
    now apply String.eqb_eq in Eh as ->.
  - destruct (providerIs provider "credentials");
      unfold ret in Hsign; injection Hsign as <- _ _; destruct Hin.
Qed.

Lemma signIn_creates_plain_users_witness :
  (Some "google" = Some "google" \/ Some "google" = Some "github") /\
  findOne (store false) (Profile.email adaProfile) = inr None /\
  [ConnectDB; FindOne (Profile.email adaProfile); Create (newUser adaProfile)]
  = [ConnectDB; FindOne (Profile.email adaProfile);
     Create (newUser adaProfile)] /\
  NewUser.role (newUser adaProfile) = "user" /\
  NewUser.email (newUser adaProfile) = Profile.email adaProfile /\
  occurs " " (NewUser.firstName (newUser adaProfile)) = false.
Proof.
  eapply (signIn_creates_plain_users
            (store false) adaProfile (Some "google") Db.initialState).
  - reflexivity.
  - right. right. left. reflexivity.
Defined.

(** X28.  What the [signIn] callback answers: for the credentials
    provider it allows the sign-in and for a provider it does not know,
    or none, it refuses, in both cases without a call of a
    collaborator; for google and github it allows the sign-in or throws
    the one error of the creation, whatever made a collaborator fail. *)
Theorem signIn_answers
        {Connection : Type} (w : World Connection)
        (user : Profile.t) (provider : option string)
        (st : Db.DbState Connection) :
  (provider = Some "google" \/ provider = Some "github" ->
   snd (fst (signIn w user provider st)) = inr true \/
   snd (fst (signIn w user provider st)) = inl (Error creating)) /\
  (provider = Some "credentials" ->
   signIn w user provider st = ([], inr true, st)) /\
  (provider <> Some "google" -> provider <> Some "github" ->
   provider <> Some "credentials" ->
   signIn w user provider st = ([], inr false, st)).
Proof.
  assert (Hprov : snd (fst (rethrowAs creating (provision w user) st))
                  = inr true \/
                  snd (fst (rethrowAs creating (provision w user) st))
                  = inl (Error creating)).
  { unfold rethrowAs. pose proof (provision_cases w user st) as Hcases.
    cbv zeta in Hcases.
    destruct (Db.connectDB (mongooseConnect w) st) as [[e|c] st1].
    - rewrite Hcases. now right.
    - destruct (findOne w (Profile.email user)) as [e|[found|]];
        rewrite Hcases; auto.
      destruct (create w (newUser user)); auto. }
  split; [|split].
  - intros [-> | ->]; exact Hprov.
  - intros ->. reflexivity.
  - intros Hg Hh Hc. unfold signIn, providerIs.
    destruct provider as [p|]; [|reflexivity].
    destruct (String.eqb_spec p "google") as [->|_]; [congruence|].
    destruct (String.eqb_spec p "github") as [->|_]; [congruence|].
    destruct (String.eqb_spec p "credentials") as [->|_]; [congruence|].
    reflexivity.
Qed.

Lemma signIn_answers_witness :
  signIn (store true) adaProfile (Some "twitter") Db.initialState
  = ([], inr false, Db.initialState).
Proof.
  apply (proj2 (proj2 (signIn_answers (store true) adaProfile
                                      (Some "twitter") Db.initialState)));
    discriminate.
Defined.

(** X29.  The role goes from the sign-in to the session: the [jwt]
    callback puts the role of the user in the token at the sign-in and
    leaves the token as it is on the later calls, and the [session]
    callback gives the session user the subject of the token for [id]
    and that role, keeping the name, the email and the image; with no
    subject or no role in the token, the session user is unchanged. *)
Theorem session_carries_role :
  (forall (sessionUser : SessionUser.t) (token : Token.t)
          (subject userRole : string),
      Token.sub token = Some subject -> subject <> "" -> userRole <> "" ->
      let later := jwt (jwt token (Some (Some userRole))) None in
      session sessionUser (Some later)
      = {| SessionUser.name := SessionUser.name sessionUser;
           SessionUser.email := SessionUser.email sessionUser;
           SessionUser.image := SessionUser.image sessionUser;
           SessionUser.id := Some subject;
           SessionUser.role := Some userRole |}) /\
  (forall (sessionUser : SessionUser.t) (token : Token.t),
      given (Token.sub token) = false \/ given (Token.role token) = false ->
      session sessionUser (Some token) = sessionUser).
Proof.
  split.
  - intros sessionUser token subject userRole Hsub Hs Hr. cbn [jwt].
    unfold session. cbn [Token.sub Token.role]. rewrite Hsub.
    destruct subject; [congruence|]. destruct userRole; [congruence|].
    reflexivity.
  - intros sessionUser token. unfold session, given.
    destruct (Token.sub token) as [[|s0 s]|];
      destruct (Token.role token) as [[|r0 r]|];
      intros [H|H]; try reflexivity; discriminate.
Qed.

Lemma session_carries_role_witness :
  SessionUser.role
    (session (SessionUser.make (Some "Ada") None None None None)
             (Some (jwt (jwt (Token.make (Some "u1") None)
                             (Some (Some "admin"))) None)))
  = Some "admin".
Proof.
  rewrite (proj1 session_carries_role _ (Token.make (Some "u1") None)
                 "u1" "admin"); [reflexivity | reflexivity | | ];
    discriminate.
Defined.

(** X30.  A sign-in flow calls [mongoose.connect] once at most, and not
    at all once the cache holds a connection, which it then leaves as it
    is. *)
Theorem flows_connect_once
        {Connection : Type} (w : World Connection)
        (credentials : option Credentials.t)
        (user : Profile.t) (provider : option string)
        (st : Db.DbState Connection) :
  let afterAuthorize := snd (authorize w credentials st) in
  let afterSignIn := snd (signIn w user provider st) in
  Db.attempts afterAuthorize <= S (Db.attempts st) /\
  Db.attempts afterSignIn <= S (Db.attempts st) /\
  (Db.conn (Db.cached st) <> None ->
   afterAuthorize = st /\ afterSignIn = st).
Proof.
  assert (Hconn : forall st1 r,
             Db.connectDB (mongooseConnect w) st = (r, st1) ->
             Db.attempts st1 <= S (Db.attempts st) /\
             (Db.conn (Db.cached st) <> None -> st1 = st)).
  { intros st1 r. unfold Db.connectDB.
    destruct (Db.conn (Db.cached st)) as [c|].
    - intros [= _ <-]. split; [lia | reflexivity].
    - destruct (Db.promise (Db.cached st)) as [[e|c]|];
        try destruct (mongooseConnect w (Db.attempts st)) as [e|c];
        intros [= _ <-]; cbn; split; try lia; congruence. }
  assert (Hprov : forall calls r st1,
             provision w user st = (calls, r, st1) ->
             Db.attempts st1 <= S (Db.attempts st) /\
             (Db.conn (Db.cached st) <> None -> st1 = st)).
  { intros calls r st1 Hp. pose proof (provision_cases w user st) as Hcases.
    cbv zeta in Hcases.
    destruct (Db.connectDB (mongooseConnect w) st) as [[e|c] st2] eqn:Ec;
      [rewrite Hcases in Hp; injection Hp as _ _ <-; now apply (Hconn _ _ eq_refl)|].
    destruct (findOne w (Profile.email user)) as [e|[found|]];
      rewrite Hcases in Hp; injection Hp as _ _ <-;
      now apply (Hconn _ _ eq_refl). }
  cbv zeta.
  assert (Ha : Db.attempts (snd (authorize w credentials st))
               <= S (Db.attempts st) /\
               (Db.conn (Db.cached st) <> None ->
                snd (authorize w credentials st) = st)).
  { unfold authorize.
    destruct credentials as [c|]; [|cbn; split; [lia|reflexivity]].
    destruct (Credentials.email c) as [[|e0 e]|];
      try (cbn; split; [lia|reflexivity]).
    destruct (Credentials.password c) as [[|p0 p]|];
      try (cbn; split; [lia|reflexivity]).
    unfold bind, connect, await, throw, ret.
    destruct (Db.connectDB (mongooseConnect w) st) as [[err|cn] st1] eqn:Ec;
      [cbn [snd]; now apply (Hconn _ _ eq_refl)|].
    destruct (findOne w (Some (String e0 e))) as [err|[u|]];
      try (cbn [snd]; now apply (Hconn _ _ eq_refl)).
    destruct (User.password u) as [[|h0 h]|];
      try (cbn [snd]; now apply (Hconn _ _ eq_refl)).
    destruct (compare w (String p0 p) (String h0 h)) as [err|[|]];
      try (cbn [snd]; now apply (Hconn _ _ eq_refl)).
    cbn [negb].
    destruct (roleDiffers (Credentials.role c) (User.role u));
      cbn [snd]; now apply (Hconn _ _ eq_refl). }
  assert (Hs : Db.attempts (snd (signIn w user provider st))
               <= S (Db.attempts st) /\
               (Db.conn (Db.cached st) <> None ->
                snd (signIn w user provider st) = st)).
  { assert (Hr : Db.attempts (snd (rethrowAs creating (provision w user) st))
                 <= S (Db.attempts st) /\
                 (Db.conn (Db.cached st) <> None ->
                  snd (rethrowAs creating (provision w user) st) = st)).
    { unfold rethrowAs.
      destruct (provision w user st) as [[calls [e|b]] st1] eqn:Ep;
        cbn [snd]; now apply (Hprov _ _ _ eq_refl). }
    unfold signIn.
    destruct (providerIs provider "google"); [exact Hr|].
    destruct (providerIs provider "github"); [exact Hr|].
    destruct (providerIs provider "credentials");
      cbn; split; try lia; reflexivity. }
  destruct Ha as [Ha1 Ha2]. destruct Hs as [Hs1 Hs2].
  split; [exact Ha1|]. split; [exact Hs1|]. auto.
Qed.

End AuthMore.
